(** * Cuby realtime client: a shallow embedding of [cuby/realtime_client.py]

    The development models the state of a [RealtimeClient] object as a
    record, its control methods as state transformers, one iteration of the
    send pipeline ([_audio_sender]) and of the receive pipeline
    ([_audio_receiver]) as step functions over that record, the session
    ([_run_session]) as a traced computation with try/finally, and the
    reconnection loop ([_reconnect_loop]) as a fuelled loop over an oracle of
    session outcomes and stop-flag observations.

    Conventions.
    - Python floats that only take part in comparisons and differences
      (VAD threshold, monotonic clock readings, sleep durations) are exact
      rationals [Q].
    - Everything the code does to the outside world (callbacks, websocket
      sends, stream operations, sleeps) is recorded as a list of [effect]s,
      in program order.
    - Everything the outside world decides (what [recv] returns, whether a
      blocking call raises, what [time.monotonic()] reads, whether another
      thread has set the stop flag in the meantime) is an explicit input of
      the step functions. *)

From Stdlib Require Import String List Bool Arith ZArith QArith Lia Lqa.
Import ListNotations.

Local Open Scope string_scope.
Local Open Scope Q_scope.
Local Open Scope list_scope.

(** ** Python helpers *)

(** [x < y] on floats, as a boolean. *)
Definition Qltb (x y : Q) : bool := negb (Qle_bool y x).

(** Python's two-argument [min(a, b)] and [max(a, b)]: the first argument is
    kept unless the second is strictly smaller (resp. strictly greater). *)
Definition py_min (a b : Q) : Q := if Qltb b a then b else a.
Definition py_max (a b : Q) : Q := if Qltb a b then b else a.
Definition py_max_int (a b : Z) : Z := if (a <? b)%Z then b else a.

(** Truthiness of a string that may be absent ([None] and the empty string are
    both falsy), and Python's [x or default] on such a value. *)
Definition truthy (s : option string) : bool :=
  match s with
  | Some EmptyString | None => false
  | Some _ => true
  end.

Definition nonempty (s : string) : bool :=
  match s with EmptyString => false | _ => true end.

Definition or_else (s : option string) (default : string) : string :=
  match s with
  | Some (String a r) => String a r
  | _ => default
  end.

(** ** Data model *)

Definition thread_id := nat.

(** The two sounddevice streams and the websocket are opaque handles; a field
    holding [None] is Python's [None]. *)
Inductive stream := RawInputStream | RawOutputStream.
Inductive websocket := WebSocket.

(** Exceptions, told apart the way [_reconnect_loop] tells them apart. *)
Inductive exn :=
| ConnectionClosedError (msg : string)
| OtherException (msg : string).

Definition exn_message (e : exn) : string :=
  match e with ConnectionClosedError m | OtherException m => m end.

(** The attributes of a [RealtimeClient].  A callback attribute is [true] when
    a callable has been assigned to it and [false] when it is still [None].
    [spawned] and [live_threads] are not attributes: they stand for the
    threads created so far and for those whose [is_alive()] is true. *)
Record client := mkClient {
  vad_threshold : Q;
  vad_silence_ms : Z;
  _thread : option thread_id;
  _loop : bool;
  _stop_flag : bool;
  _mic_enabled : bool;
  _speaker_enabled : bool;
  _connected : bool;
  _in_stream : option stream;
  _out_stream : option stream;
  _current_ws : option websocket;
  _assistant_speaking : bool;
  _last_assistant_audio_time : Q;
  _assistant_cooldown_sec : Q;
  _assistant_text_buffer : string;
  _assistant_audio_buffer : string;
  on_event_text : bool;
  on_server_error : bool;
  on_status : bool;
  on_ws_state : bool;
  on_audio_level : bool;
  on_user_transcript : bool;
  spawned : nat;
  live_threads : list thread_id
}.

(** [__init__] with its default arguments; the six callbacks start as [None]. *)
Definition init (vad_threshold0 : Q) (vad_silence_ms0 : Z) : client :=
  mkClient vad_threshold0 vad_silence_ms0 None false false true true false
    None None None false 0 (8 # 10) "" "" false false false false false false
    O [].

Definition default_client : client := init (95 # 100) 1600.

(** Assignment to one attribute. *)
Definition set_vad_threshold (v : Q) (c : client) : client :=
  mkClient v (vad_silence_ms c) (_thread c) (_loop c) (_stop_flag c)
    (_mic_enabled c) (_speaker_enabled c) (_connected c) (_in_stream c)
    (_out_stream c) (_current_ws c) (_assistant_speaking c)
    (_last_assistant_audio_time c) (_assistant_cooldown_sec c)
    (_assistant_text_buffer c) (_assistant_audio_buffer c) (on_event_text c)
    (on_server_error c) (on_status c) (on_ws_state c) (on_audio_level c)
    (on_user_transcript c) (spawned c) (live_threads c).

Definition set_vad_silence_ms (v : Z) (c : client) : client :=
  mkClient (vad_threshold c) v (_thread c) (_loop c) (_stop_flag c)
    (_mic_enabled c) (_speaker_enabled c) (_connected c) (_in_stream c)
    (_out_stream c) (_current_ws c) (_assistant_speaking c)
    (_last_assistant_audio_time c) (_assistant_cooldown_sec c)
    (_assistant_text_buffer c) (_assistant_audio_buffer c) (on_event_text c)
    (on_server_error c) (on_status c) (on_ws_state c) (on_audio_level c)
    (on_user_transcript c) (spawned c) (live_threads c).

Definition set_mic_enabled (v : bool) (c : client) : client :=
  mkClient (vad_threshold c) (vad_silence_ms c) (_thread c) (_loop c)
    (_stop_flag c) v (_speaker_enabled c) (_connected c) (_in_stream c)
    (_out_stream c) (_current_ws c) (_assistant_speaking c)
    (_last_assistant_audio_time c) (_assistant_cooldown_sec c)
    (_assistant_text_buffer c) (_assistant_audio_buffer c) (on_event_text c)
    (on_server_error c) (on_status c) (on_ws_state c) (on_audio_level c)
    (on_user_transcript c) (spawned c) (live_threads c).

Definition set_speaker_enabled (v : bool) (c : client) : client :=
  mkClient (vad_threshold c) (vad_silence_ms c) (_thread c) (_loop c)
    (_stop_flag c) (_mic_enabled c) v (_connected c) (_in_stream c)
    (_out_stream c) (_current_ws c) (_assistant_speaking c)
    (_last_assistant_audio_time c) (_assistant_cooldown_sec c)
    (_assistant_text_buffer c) (_assistant_audio_buffer c) (on_event_text c)
    (on_server_error c) (on_status c) (on_ws_state c) (on_audio_level c)
    (on_user_transcript c) (spawned c) (live_threads c).

Definition set_connected (v : bool) (c : client) : client :=
  mkClient (vad_threshold c) (vad_silence_ms c) (_thread c) (_loop c)
    (_stop_flag c) (_mic_enabled c) (_speaker_enabled c) v (_in_stream c)
    (_out_stream c) (_current_ws c) (_assistant_speaking c)
    (_last_assistant_audio_time c) (_assistant_cooldown_sec c)
    (_assistant_text_buffer c) (_assistant_audio_buffer c) (on_event_text c)
    (on_server_error c) (on_status c) (on_ws_state c) (on_audio_level c)
    (on_user_transcript c) (spawned c) (live_threads c).

Definition set_in_stream (v : option stream) (c : client) : client :=
  mkClient (vad_threshold c) (vad_silence_ms c) (_thread c) (_loop c)
    (_stop_flag c) (_mic_enabled c) (_speaker_enabled c) (_connected c) v
    (_out_stream c) (_current_ws c) (_assistant_speaking c)
    (_last_assistant_audio_time c) (_assistant_cooldown_sec c)
    (_assistant_text_buffer c) (_assistant_audio_buffer c) (on_event_text c)
    (on_server_error c) (on_status c) (on_ws_state c) (on_audio_level c)
    (on_user_transcript c) (spawned c) (live_threads c).

Definition set_out_stream (v : option stream) (c : client) : client :=
  mkClient (vad_threshold c) (vad_silence_ms c) (_thread c) (_loop c)
    (_stop_flag c) (_mic_enabled c) (_speaker_enabled c) (_connected c)
    (_in_stream c) v (_current_ws c) (_assistant_speaking c)
    (_last_assistant_audio_time c) (_assistant_cooldown_sec c)
    (_assistant_text_buffer c) (_assistant_audio_buffer c) (on_event_text c)
    (on_server_error c) (on_status c) (on_ws_state c) (on_audio_level c)
    (on_user_transcript c) (spawned c) (live_threads c).

Definition set_current_ws (v : option websocket) (c : client) : client :=
  mkClient (vad_threshold c) (vad_silence_ms c) (_thread c) (_loop c)
    (_stop_flag c) (_mic_enabled c) (_speaker_enabled c) (_connected c)
    (_in_stream c) (_out_stream c) v (_assistant_speaking c)
    (_last_assistant_audio_time c) (_assistant_cooldown_sec c)
    (_assistant_text_buffer c) (_assistant_audio_buffer c) (on_event_text c)
    (on_server_error c) (on_status c) (on_ws_state c) (on_audio_level c)
    (on_user_transcript c) (spawned c) (live_threads c).

Definition set_assistant_speaking (v : bool) (c : client) : client :=
  mkClient (vad_threshold c) (vad_silence_ms c) (_thread c) (_loop c)
    (_stop_flag c) (_mic_enabled c) (_speaker_enabled c) (_connected c)
    (_in_stream c) (_out_stream c) (_current_ws c) v
    (_last_assistant_audio_time c) (_assistant_cooldown_sec c)
    (_assistant_text_buffer c) (_assistant_audio_buffer c) (on_event_text c)
    (on_server_error c) (on_status c) (on_ws_state c) (on_audio_level c)
    (on_user_transcript c) (spawned c) (live_threads c).

Definition set_last_assistant_audio_time (v : Q) (c : client) : client :=
  mkClient (vad_threshold c) (vad_silence_ms c) (_thread c) (_loop c)
    (_stop_flag c) (_mic_enabled c) (_speaker_enabled c) (_connected c)
    (_in_stream c) (_out_stream c) (_current_ws c) (_assistant_speaking c) v
    (_assistant_cooldown_sec c) (_assistant_text_buffer c)
    (_assistant_audio_buffer c) (on_event_text c) (on_server_error c)
    (on_status c) (on_ws_state c) (on_audio_level c) (on_user_transcript c)
    (spawned c) (live_threads c).

Definition set_assistant_text_buffer (v : string) (c : client) : client :=
  mkClient (vad_threshold c) (vad_silence_ms c) (_thread c) (_loop c)
    (_stop_flag c) (_mic_enabled c) (_speaker_enabled c) (_connected c)
    (_in_stream c) (_out_stream c) (_current_ws c) (_assistant_speaking c)
    (_last_assistant_audio_time c) (_assistant_cooldown_sec c) v
    (_assistant_audio_buffer c) (on_event_text c) (on_server_error c)
    (on_status c) (on_ws_state c) (on_audio_level c) (on_user_transcript c)
    (spawned c) (live_threads c).

Definition set_assistant_audio_buffer (v : string) (c : client) : client :=
  mkClient (vad_threshold c) (vad_silence_ms c) (_thread c) (_loop c)
    (_stop_flag c) (_mic_enabled c) (_speaker_enabled c) (_connected c)
    (_in_stream c) (_out_stream c) (_current_ws c) (_assistant_speaking c)
    (_last_assistant_audio_time c) (_assistant_cooldown_sec c)
    (_assistant_text_buffer c) v (on_event_text c) (on_server_error c)
    (on_status c) (on_ws_state c) (on_audio_level c) (on_user_transcript c)
    (spawned c) (live_threads c).

Definition set_thread (v : option thread_id) (c : client) : client :=
  mkClient (vad_threshold c) (vad_silence_ms c) v (_loop c) (_stop_flag c)
    (_mic_enabled c) (_speaker_enabled c) (_connected c) (_in_stream c)
    (_out_stream c) (_current_ws c) (_assistant_speaking c)
    (_last_assistant_audio_time c) (_assistant_cooldown_sec c)
    (_assistant_text_buffer c) (_assistant_audio_buffer c) (on_event_text c)
    (on_server_error c) (on_status c) (on_ws_state c) (on_audio_level c)
    (on_user_transcript c) (spawned c) (live_threads c).

Definition set_stop_flag (v : bool) (c : client) : client :=
  mkClient (vad_threshold c) (vad_silence_ms c) (_thread c) (_loop c) v
    (_mic_enabled c) (_speaker_enabled c) (_connected c) (_in_stream c)
    (_out_stream c) (_current_ws c) (_assistant_speaking c)
    (_last_assistant_audio_time c) (_assistant_cooldown_sec c)
    (_assistant_text_buffer c) (_assistant_audio_buffer c) (on_event_text c)
    (on_server_error c) (on_status c) (on_ws_state c) (on_audio_level c)
    (on_user_transcript c) (spawned c) (live_threads c).

Definition set_loop (v : bool) (c : client) : client :=
  mkClient (vad_threshold c) (vad_silence_ms c) (_thread c) v (_stop_flag c)
    (_mic_enabled c) (_speaker_enabled c) (_connected c) (_in_stream c)
    (_out_stream c) (_current_ws c) (_assistant_speaking c)
    (_last_assistant_audio_time c) (_assistant_cooldown_sec c)
    (_assistant_text_buffer c) (_assistant_audio_buffer c) (on_event_text c)
    (on_server_error c) (on_status c) (on_ws_state c) (on_audio_level c)
    (on_user_transcript c) (spawned c) (live_threads c).

(** ** Messages and observable effects *)

Definition bytes := list Byte.byte.

(** Inbound events, by their ["type"]; an optional field is [None] when the
    key is missing from the JSON object (or is [null]).  For an ["error"]
    event, [code] is [msg["error"]["code"]], [None] when there is no error
    object or it has no code. *)
Inductive event :=
| ResponseAudioDelta (delta : option string)
| ResponseAudioDone
| ResponseAudioTranscriptDelta (delta : option string)
| ResponseAudioTranscriptDone (transcript : option string)
| ResponseTextDelta (delta : option string)
| ResponseTextDone (text : option string)
| InputAudioTranscriptionCompleted (transcript : option string)
| Error (code : option string)
| OtherEvent (etype : string).

(** Outbound events; [InputAudioBufferAppend data] carries the base64 text of
    the frame [data]. *)
Inductive wire_out :=
| SessionUpdate (threshold : Q) (silence_duration_ms : Z)
| InputAudioBufferAppend (data : bytes)
| ConversationItemCreate (text : string)
| ResponseCreate.

Inductive status_text :=
| StatusText (s : string)
| StatusConnecting
| StatusWebSocketClosed (e : string)
| StatusVadUpdated (threshold : Q) (silence : Z)
| StatusSessionUpdateSent (threshold : Q) (silence : Z).

Inductive error_text :=
| ErrorText (s : string)
| ErrorOfEvent (msg : event).

Inductive effect :=
| Status (s : status_text)
| ServerError (e : error_text)
| EventText (text : string)
| UserTranscript (text : string)
| WsState (up : bool)
| AudioLevel (level : Q)
| WsConnect
| WsSend (m : wire_out)
| WsClose
| StreamsOpen
| StreamStop (s : stream)
| StreamClose (s : stream)
| OutStreamWrite (raw : bytes)
| Sleep (seconds : Q)
| ScheduleSessionUpdate
| ScheduleWsClose
| ThreadStart (t : thread_id)
| ThreadJoin (t : thread_id)
| RunSession.

(** [if self.cb: self.cb(x)] *)
Definition call (cb : bool) (e : effect) : list effect :=
  if cb then [e] else [].

Definition is_append (e : effect) : bool :=
  match e with WsSend (InputAudioBufferAppend _) => true | _ => false end.

(** ** Public control API *)

Definition thread_is_alive (c : client) : bool :=
  match _thread c with
  | Some t => existsb (Nat.eqb t) (live_threads c)
  | None => false
  end.

(** [start]: the new thread gets the next unused identifier and is alive from
    [Thread.start()] on. *)
Definition start (c : client) : client * list effect :=
  if thread_is_alive c then (c, [])
  else
    let t := spawned c in
    (mkClient (vad_threshold c) (vad_silence_ms c) (Some t) (_loop c) false
       (_mic_enabled c) (_speaker_enabled c) (_connected c) (_in_stream c)
       (_out_stream c) (_current_ws c) (_assistant_speaking c)
       (_last_assistant_audio_time c) (_assistant_cooldown_sec c)
       (_assistant_text_buffer c) (_assistant_audio_buffer c)
       (on_event_text c) (on_server_error c) (on_status c) (on_ws_state c)
       (on_audio_level c) (on_user_transcript c) (S t) (t :: live_threads c),
     [ThreadStart t]).

(** [if self._loop and self._connected and self._current_ws is not None]:
    schedule [_send_session_update] on the session's loop. *)
Definition live_session_update (c : client) : list effect :=
  if _loop c && _connected c
     && match _current_ws c with Some _ => true | None => false end
  then [ScheduleSessionUpdate] else [].

Definition set_vad_params (threshold : option Q) (silence_ms : option Z)
    (c : client) : client * list effect :=
  let c1 :=
    match threshold with
    | Some t => set_vad_threshold (py_max 0 (py_min 1 t)) c
    | None => c
    end in
  let c2 :=
    match silence_ms with
    | Some s => set_vad_silence_ms (py_max_int 100 s) c1
    | None => c1
    end in
  (c2,
   call (on_status c2)
     (Status (StatusVadUpdated (vad_threshold c2) (vad_silence_ms c2)))
   ++ live_session_update c2).

Definition toggle_mic (enabled : bool) (c : client) : client * list effect :=
  (set_mic_enabled enabled c,
   call (on_status c)
     (Status (StatusText (if enabled then "Microphone enabled."
                          else "Microphone muted.")))).

Definition toggle_speaker (enabled : bool) (c : client)
    : client * list effect :=
  (set_speaker_enabled enabled c,
   call (on_status c)
     (Status (StatusText (if enabled then "Speaker enabled."
                          else "Speaker muted.")))).

(** ** The send pipeline: one iteration of [_audio_sender] *)

Inductive control := Continue | Break | Raise (e : exn).

Inductive read_result :=
| ReadOk (data : bytes) (overflowed : bool)
| ReadRaises (e : exn).

(** What the world decides during one iteration of the sender:
    the result of the blocking [self._in_stream.read], the clock reading,
    whether [ws.send] raises, and the stop flag as seen in the two
    [except] branches. *)
Record sender_env := mkSenderEnv {
  snd_read : read_result;
  snd_stop_after_read : bool;
  snd_now : Q;
  snd_send : option exn;
  snd_stop_after_send : bool
}.

(** The three [continue] tests, in program order. *)
Inductive suppression := MicMuted | AssistantSpeaking | Cooldown.

Definition suppressed (c : client) (now : Q) : option suppression :=
  if negb (_mic_enabled c) then Some MicMuted
  else if _assistant_speaking c then Some AssistantSpeaking
  else if Qltb 0 (_last_assistant_audio_time c)
          && Qltb (now - _last_assistant_audio_time c)
                  (_assistant_cooldown_sec c)
  then Some Cooldown
  else None.

(** One turn of the [while] loop, its condition included.  [WsSend m] records
    the call [await ws.send(json.dumps(m))], whether or not it raises. *)
Definition _audio_sender_iter (c : client) (env : sender_env)
    : list effect * control :=
  if _stop_flag c then ([], Break)
  else
    match _in_stream c with
    | None => ([], Break)
    | Some _ =>
      match snd_read env with
      | ReadRaises e =>
        if snd_stop_after_read env then ([], Break)
        else (call (on_server_error c)
                (ServerError
                   (ErrorText
                      ("Input stream error: " ++ exn_message e)%string)),
              Break)
      | ReadOk data _ =>
        match suppressed c (snd_now env) with
        | Some _ => ([Sleep 0], Continue)
        | None =>
          let msg := InputAudioBufferAppend data in
          match snd_send env with
          | Some e =>
            if snd_stop_after_send env then ([WsSend msg], Break)
            else (WsSend msg ::
                  call (on_server_error c)
                    (ServerError
                       (ErrorText ("Sender error: " ++ exn_message e)%string)),
                  Break)
          | None => ([WsSend msg; Sleep 0], Continue)
          end
        end
      end
    end.

(** ** The receive pipeline: one iteration of [_audio_receiver] *)

(** What [await ws.recv()] gives: a text that parses to an event, a text
    that [json.loads] or the lookup of its type rejects, or an exception. *)
Inductive recv_result :=
| RecvOk (msg : event)
| RecvMalformed
| RecvRaises (e : exn).

(** What the world decides during one iteration of the receiver:
    what [ws.recv] returns, the clock reading, the result of
    [base64.b64decode] ([None] when it raises), whether the playback write
    raises, the root-mean-square of the samples divided by 32768 ([None] when
    there are no samples or numpy raises), and the stop flag as seen in the
    two [except] branches. *)
Record receiver_env := mkReceiverEnv {
  rcv_recv : recv_result;
  rcv_stop_after_recv : bool;
  rcv_now : Q;
  rcv_decoded : option bytes;
  rcv_write_raises : bool;
  rcv_stop_after_write : bool;
  rcv_rms : option Q
}.

Definition audio_level_effects (c : client) (env : receiver_env)
    : list effect :=
  if on_audio_level c then
    match rcv_rms env with
    | Some rms => [AudioLevel (py_min 1 (rms * 4))]
    | None => []
    end
  else [].

Definition already_active : string :=
  "conversation_already_has_active_response".

Definition dispatch (c : client) (msg : event) (env : receiver_env)
    : client * list effect * control :=
  match msg with
  | ResponseAudioDelta b64 =>
    if negb (_speaker_enabled c) then (c, [], Continue)
    else if negb (truthy b64) then (c, [], Continue)
    else
      match rcv_decoded env with
      | None => (c, [], Raise (OtherException "binascii.Error"))
      | Some raw =>
        let c' :=
          set_last_assistant_audio_time (rcv_now env)
            (set_assistant_speaking true c) in
        match _out_stream c' with
        | Some _ =>
          if rcv_write_raises env then
            if rcv_stop_after_write env
            then (c', [OutStreamWrite raw], Break)
            else (c', OutStreamWrite raw :: audio_level_effects c' env,
                  Continue)
          else (c', OutStreamWrite raw :: audio_level_effects c' env,
                Continue)
        | None => (c', audio_level_effects c' env, Continue)
        end
      end
  | ResponseAudioDone => (set_assistant_speaking false c, [], Continue)
  | ResponseAudioTranscriptDelta d =>
    let delta := or_else d "" in
    (if nonempty delta
     then set_assistant_audio_buffer
            (_assistant_audio_buffer c ++ delta)%string c
     else c, [], Continue)
  | ResponseAudioTranscriptDone tr =>
    let out :=
      if negb (nonempty (_assistant_text_buffer c)) then
        let transcript := or_else tr (_assistant_audio_buffer c) in
        if nonempty transcript && on_event_text c
        then [EventText transcript] else []
      else [] in
    (set_assistant_text_buffer "" (set_assistant_audio_buffer "" c),
     out, Continue)
  | ResponseTextDelta d =>
    let delta := or_else d "" in
    (if nonempty delta
     then set_assistant_text_buffer
            (_assistant_text_buffer c ++ delta)%string c
     else c, [], Continue)
  | ResponseTextDone t =>
    let text := or_else t (_assistant_text_buffer c) in
    (set_assistant_audio_buffer "" (set_assistant_text_buffer "" c),
     if nonempty text && on_event_text c then [EventText text] else [],
     Continue)
  | InputAudioTranscriptionCompleted tr =>
    let transcript := or_else tr "" in
    (c,
     if nonempty transcript && on_user_transcript c
     then [UserTranscript transcript] else [],
     Continue)
  | Error code =>
    match code with
    | Some k =>
      if String.eqb k already_active then (c, [], Continue)
      else (c, call (on_server_error c) (ServerError (ErrorOfEvent msg)),
            Continue)
    | None =>
      (c, call (on_server_error c) (ServerError (ErrorOfEvent msg)), Continue)
    end
  | OtherEvent _ => (c, [], Continue)
  end.

Definition _audio_receiver_iter (c : client) (env : receiver_env)
    : client * list effect * control :=
  if _stop_flag c then (c, [], Break)
  else
    match rcv_recv env with
    | RecvRaises e =>
      if rcv_stop_after_recv env then (c, [], Break)
      else (c,
            call (on_server_error c)
              (ServerError
                 (ErrorText ("Receiver error: " ++ exn_message e)%string)),
            Break)
    | RecvMalformed => (c, [], Raise (OtherException "JSONDecodeError"))
    | RecvOk msg => dispatch c msg env
    end.

(** The [while] loop of [_audio_receiver] run on its own, one [receiver_env]
    per turn; [Continue] means the loop is waiting for the next message. *)
Fixpoint receiver_loop (c : client) (envs : list receiver_env)
    : client * list effect * control :=
  match envs with
  | [] => (c, [], Continue)
  | env :: rest =>
    let '(c1, out1, k) := _audio_receiver_iter c env in
    match k with
    | Continue =>
      let '(c2, out2, k2) := receiver_loop c1 rest in
      (c2, out1 ++ out2, k2)
    | _ => (c1, out1, k)
    end
  end.

Definition _audio_receiver (c : client) (envs : list receiver_env)
    : client * list effect * control :=
  let '(c', out, k) := receiver_loop c envs in
  (c', call (on_status c) (Status (StatusText "Receiver started.")) ++ out, k).

(** ** [stop] *)

(** [stop()] then [close()] on a stream attribute that is not [None]; both
    calls are attempted, whatever they raise is swallowed. *)
Definition release (s : option stream) : list effect :=
  match s with
  | Some x => [StreamStop x; StreamClose x]
  | None => []
  end.

(** [stop()].  [join(timeout=3.0)] returns whether or not the thread has
    ended and [_thread] is set to [None] either way, so the thread is not
    taken out of [live_threads] here. *)
Definition stop (c : client) : client * list effect :=
  let c1 := set_stop_flag true c in
  let closing :=
    if _loop c1 && match _current_ws c1 with Some _ => true | None => false end
    then [ScheduleWsClose] else [] in
  let c2 := set_in_stream None c1 in
  let c3 := set_out_stream None c2 in
  let joining :=
    match _thread c3 with
    | Some t => if thread_is_alive c3 then [ThreadJoin t] else []
    | None => []
    end in
  (set_thread None c3,
   closing ++ release (_in_stream c1) ++ release (_out_stream c2) ++ joining).

(** ** The two pipelines of a session, interleaved

    Both pipelines are tasks of one event loop, so between two suspension
    points a turn of either runs alone; control calls arrive from the UI
    thread in between.  A schedule lists the turns in the order they run.
    A task reports its status line when it first runs.

    A turn is a whole iteration, from the test of the stop flag at the head
    of the loop to its end.  A [stop()] that arrives while a task is
    suspended in [ws.recv] or blocked in the read is therefore placed before
    or after that iteration; inside it, it only shows through the stop flag
    seen in the [except] branches. *)

Inductive step :=
| SenderTurn (env : sender_env)
| ReceiverTurn (env : receiver_env)
| ToggleMic (enabled : bool)
| ToggleSpeaker (enabled : bool)
| SetVadParams (threshold : option Q) (silence_ms : option Z)
| Stop.

Inductive task := NotStarted | Running | Done.

Record pipelines := mkPipelines {
  p_client : client;
  p_sender : task;
  p_receiver : task;
  p_raised : option exn
}.

Definition after (k : control) : task :=
  match k with Continue => Running | _ => Done end.

Definition raised (k : control) (before : option exn) : option exn :=
  match k with Raise e => Some e | _ => before end.

(** The status line a task reports when it first runs. *)
Definition greeting (c : client) (t : task) (line : string) : list effect :=
  match t with
  | NotStarted => call (on_status c) (Status (StatusText line))
  | _ => []
  end.

Definition turn (st : pipelines) (s : step) : pipelines * list effect :=
  let c := p_client st in
  let control_call (r : client * list effect) :=
    (mkPipelines (fst r) (p_sender st) (p_receiver st) (p_raised st),
     snd r) in
  match s with
  | SenderTurn env =>
    match p_sender st with
    | Done => (st, [])
    | t =>
      let '(out, k) := _audio_sender_iter c env in
      (mkPipelines c (after k) (p_receiver st) (raised k (p_raised st)),
       greeting c t "Mic sender started." ++ out)
    end
  | ReceiverTurn env =>
    match p_receiver st with
    | Done => (st, [])
    | t =>
      let '(c', out, k) := _audio_receiver_iter c env in
      (mkPipelines c' (p_sender st) (after k) (raised k (p_raised st)),
       greeting c t "Receiver started." ++ out)
    end
  | ToggleMic b => control_call (toggle_mic b c)
  | ToggleSpeaker b => control_call (toggle_speaker b c)
  | SetVadParams t s => control_call (set_vad_params t s c)
  | Stop => control_call (stop c)
  end.

(** [asyncio.gather] returns when both tasks have returned and raises as soon
    as one of them raises. *)
Definition gathered (st : pipelines) : bool :=
  match p_raised st with
  | Some _ => true
  | None =>
    match p_sender st, p_receiver st with
    | Done, Done => true
    | _, _ => false
    end
  end.

Fixpoint run_turns (st : pipelines) (sched : list step)
    : pipelines * list effect :=
  match sched with
  | [] => (st, [])
  | s :: rest =>
    if gathered st then (st, [])
    else
      let '(st1, out1) := turn st s in
      let '(st2, out2) := run_turns st1 rest in
      (st2, out1 ++ out2)
  end.

(** ** One session: [_run_session] *)

Inductive result := Returned | Raised (e : exn).

(** How opening the two streams goes: everything succeeds, or the first
    constructor raises (no attribute assigned), or the second one does
    ([_in_stream] assigned), or one of the two [start()] calls does (both
    assigned). *)
Inductive audio_open :=
| AudioOpened
| InputStreamRaises (e : exn)
| OutputStreamRaises (e : exn)
| StartRaises (e : exn).

(** What the world decides during one session: how the streams open, whether
    [ws_connect] raises, whether sending the initial [session.update]
    raises, and the schedule of the pipelines' turns. *)
Record session_env := mkSessionEnv {
  ses_audio : audio_open;
  ses_connect : option exn;
  ses_update : option exn;
  ses_schedule : list step
}.

(** The five assignments at the top of [_run_session]. *)
Definition session_reset (c : client) : client :=
  set_last_assistant_audio_time 0
    (set_assistant_audio_buffer ""
       (set_assistant_text_buffer ""
          (set_assistant_speaking false (set_current_ws None c)))).

(** The [except] branch around the opening of the streams. *)
Definition audio_init_failed (c : client) (e : exn) : client * list effect :=
  (set_out_stream None (set_in_stream None c),
   call (on_server_error c)
     (ServerError
        (ErrorText ("Failed to open audio streams: " ++ exn_message e)%string))
   ++ release (_in_stream c) ++ release (_out_stream c)
   ++ call (on_status c)
        (Status (StatusText "Audio streams closed due to init error."))).

(** The [finally] block. *)
Definition session_finally (c : client) : client * list effect :=
  (set_out_stream None
     (set_in_stream None (set_connected false (set_current_ws None c))),
   call (on_ws_state c) (WsState false)
   ++ release (_in_stream c) ++ release (_out_stream c)
   ++ call (on_status c) (Status (StatusText "Audio streams closed."))).

(** [_send_session_update] *)
Definition _send_session_update (c : client) (raises : option exn)
    : list effect * result :=
  let payload := SessionUpdate (vad_threshold c) (vad_silence_ms c) in
  match raises with
  | Some e => ([WsSend payload], Raised e)
  | None =>
    (WsSend payload ::
     call (on_status c)
       (Status (StatusSessionUpdateSent (vad_threshold c) (vad_silence_ms c))),
     Returned)
  end.

(** The attributes once the streams are open, and once the connection is. *)
Definition streams_opened (c : client) : client :=
  set_out_stream (Some RawOutputStream)
    (set_in_stream (Some RawInputStream) c).

Definition session_connected (c : client) : client :=
  set_connected true (set_current_ws (Some WebSocket) c).

(** The body of the [async with] block once the connection is open; [None]
    when the schedule ends with the pipelines still running. *)
Definition session_body (c : client) (env : session_env)
    : option (client * list effect * result) :=
  let c1 := session_connected c in
  let hello :=
    call (on_ws_state c1) (WsState true)
    ++ call (on_status c1)
         (Status (StatusText "Connected. You can start speaking.")) in
  match _send_session_update c1 (ses_update env) with
  | (out, Raised e) => Some (c1, hello ++ out, Raised e)
  | (out, Returned) =>
    let '(st, ran) :=
      run_turns (mkPipelines c1 NotStarted NotStarted None)
        (ses_schedule env) in
    if gathered st then
      Some (p_client st, hello ++ out ++ ran,
            match p_raised st with Some e => Raised e | None => Returned end)
    else None
  end.

(** [_run_session].  [WsConnect] is recorded when the connection has been
    opened, [WsClose] when the [async with] block is left. *)
Definition _run_session (c : client) (env : session_env)
    : option (client * list effect * result) :=
  if _stop_flag c then Some (c, [], Returned)
  else
    let connecting := call (on_status c) (Status StatusConnecting) in
    let c1 := session_reset c in
    match ses_audio env with
    | InputStreamRaises e =>
      let '(c2, out) := audio_init_failed c1 e in
      Some (c2, connecting ++ out, Returned)
    | OutputStreamRaises e =>
      let '(c2, out) :=
        audio_init_failed (set_in_stream (Some RawInputStream) c1) e in
      Some (c2, connecting ++ out, Returned)
    | StartRaises e =>
      let '(c2, out) := audio_init_failed (streams_opened c1) e in
      Some (c2, connecting ++ out, Returned)
    | AudioOpened =>
      let c2 := streams_opened c1 in
      match ses_connect env with
      | Some e =>
        let '(c3, fin) := session_finally c2 in
        Some (c3, connecting ++ StreamsOpen :: fin, Raised e)
      | None =>
        match session_body c2 env with
        | None => None
        | Some (c3, ran, r) =>
          let '(c4, fin) := session_finally c3 in
          Some (c4,
                connecting ++ StreamsOpen :: WsConnect :: ran
                ++ WsClose :: fin, r)
        end
      end
    end.

(** ** The reconnection loop: [_reconnect_loop]

    The stop flag is set by another thread, so each [is_set()] of the loop is
    a fresh observation: [stop k] is what the [k]-th read returns.
    [outcome n] is how the [n]-th session ends. *)

(** [for _ in range(n): if stop: break; await asyncio.sleep(0.1)], started at
    read [k]; returns the trace and the index of the next read. *)
Fixpoint interruptible_wait (n : nat) (stop : nat -> bool) (k : nat)
    : list effect * nat :=
  match n with
  | O => ([], k)
  | S n' =>
    if stop k then ([], S k)
    else
      let '(tr, k') := interruptible_wait n' stop (S k) in
      (Sleep (1 # 10) :: tr, k')
  end.

(** What follows [await self._run_session()] in one turn of the loop. *)
Definition after_session (c : client) (stop : nat -> bool) (k : nat)
    (r : result) : list effect * nat * control :=
  match r with
  | Raised (ConnectionClosedError m) =>
    if stop k then ([], S k, Break)
    else
      let '(tr, k') := interruptible_wait 30 stop (S k) in
      (call (on_status c) (Status (StatusWebSocketClosed m)) ++ tr,
       k', Continue)
  | Raised (OtherException m) =>
    if stop k then ([], S k, Break)
    else
      let '(tr, k') := interruptible_wait 50 stop (S k) in
      (call (on_server_error c)
         (ServerError (ErrorText ("Unexpected error: " ++ m)%string)) ++ tr,
       k', Continue)
  | Returned =>
    if stop k then ([], S k, Continue)
    else ([Sleep (3 # 10)], S k, Continue)
  end.

(** The loop itself, with [fuel] bounding the number of sessions; the boolean
    tells whether the loop has ended. *)
Fixpoint _reconnect_loop (fuel : nat) (c : client) (stop : nat -> bool)
    (outcome : nat -> result) (k n : nat) : list effect * bool :=
  match fuel with
  | O => ([], false)
  | S fuel' =>
    if stop k then ([], true)
    else
      let '(tr, k', ctl) := after_session c stop (S k) (outcome n) in
      match ctl with
      | Continue =>
        let '(rest, ended) := _reconnect_loop fuel' c stop outcome k' (S n) in
        (RunSession :: tr ++ rest, ended)
      | _ => (RunSession :: tr, true)
      end
  end.

(** Total time slept in a trace. *)
Fixpoint slept (tr : list effect) : Q :=
  match tr with
  | [] => 0
  | Sleep d :: rest => d + slept rest
  | _ :: rest => slept rest
  end.

Definition sleeps (tr : list effect) : list Q :=
  flat_map (fun e => match e with Sleep d => [d] | _ => [] end) tr.

(** ** Statements taken from the specification *)

(** Clamping into the unit interval, in the specification's words. *)
Definition clamp_unit (x : Q) : Q :=
  if Qlt_le_dec x 0 then 0 else if Qlt_le_dec 1 x then 1 else x.

(** The [EventText] notifications of a trace, in order. *)
Definition event_texts (tr : list effect) : list string :=
  flat_map (fun e => match e with EventText t => [t] | _ => [] end) tr.

Definition server_errors (tr : list effect) : list error_text :=
  flat_map (fun e => match e with ServerError t => [t] | _ => [] end) tr.

(** The environments [envs] deliver the messages [msgs], one per turn. *)
Definition delivers (envs : list receiver_env) (msgs : list event) : Prop :=
  map rcv_recv envs = map RecvOk msgs.

Definition text_deltas (frags : list string) : list event :=
  map (fun f => ResponseTextDelta (Some f)) frags.

Definition joined (frags : list string) : string :=
  fold_right String.append "" frags.

(** "A sequence of text deltas followed by a done event without final text
    is flushed as exactly one completed-message notification carrying the
    concatenation, and both buffers are empty afterwards": [envs] is the
    whole sequence of turns, the done event included. *)
Definition flushed_once (c : client) (envs : list receiver_env)
    (frags : list string) : Prop :=
  let r := fst (receiver_loop c envs) in
  event_texts (snd r) = [joined frags]
  /\ _assistant_text_buffer (fst r) = ""
  /\ _assistant_audio_buffer (fst r) = "".

(** "On an audio-transcript done event: with an empty text buffer, one
    notification carrying the event's transcript field when present and the
    audio-transcript buffer otherwise; with a non-empty text buffer, none;
    both buffers empty afterwards." *)
Definition transcript_flushed (c : client) (env : receiver_env)
    (transcript : option string) : Prop :=
  let r := fst (_audio_receiver_iter c env) in
  (_assistant_text_buffer c = "" ->
   event_texts (snd r)
   = [match transcript with
      | Some t => t
      | None => _assistant_audio_buffer c
      end])
  /\ (_assistant_text_buffer c <> "" -> event_texts (snd r) = [])
  /\ _assistant_text_buffer (fst r) = ""
  /\ _assistant_audio_buffer (fst r) = "".

(** ** Concrete clients and environments *)

(** The client as [window.py] sets it up: the six callbacks assigned. *)
Definition window_client : client :=
  mkClient (95 # 100) 1600 None false false true true false None None None
    false 0 (8 # 10) "" "" true true true true true true O [].

(** The same client once [start()] has been called and [_thread_main] has
    created its event loop. *)
Definition running_client : client :=
  set_loop true (fst (start window_client)).

(** The same client inside a session, streams and connection open. *)
Definition live_client : client :=
  session_connected (streams_opened (session_reset running_client)).

(** A turn of the receiver that gets [msg] at clock reading [now]; an audio
    payload decodes to two bytes. *)
Definition receives (msg : event) (now : Q) : receiver_env :=
  mkReceiverEnv (RecvOk msg) false now (Some [Byte.x00; Byte.x01]) false
    false (Some (1 # 8)).

(** A turn of the sender that reads one frame at clock reading [now]. *)
Definition frame : bytes := [Byte.x10; Byte.x00].

Definition reads_frame (now : Q) : sender_env :=
  mkSenderEnv (ReadOk frame false) false now None false.

(** ** The echo guard along a schedule *)

(** A turn in which the receiver gets an audio chunk. *)
Definition is_chunk (s : step) : bool :=
  match s with
  | ReceiverTurn env =>
    match rcv_recv env with
    | RecvOk (ResponseAudioDelta _) => true
    | _ => false
    end
  | _ => false
  end.

(** The monotonic clock does not go back: a receiver turn that comes after
    reading [t] reads at least [t]. *)
Definition not_before (t : Q) (s : step) : Prop :=
  match s with
  | ReceiverTurn env => t <= rcv_now env
  | _ => True
  end.

(** The client after the receiver has taken the turn [chunk] and the
    schedule [later] has run, both pipelines being under way. *)
Definition after_chunk (c : client) (chunk : receiver_env)
    (later : list step) : client :=
  p_client
    (fst (run_turns (mkPipelines c Running Running None)
            (ReceiverTurn chunk :: later))).

(** "After an audio chunk received with the speaker enabled, a turn of the
    sender less than 0.8 s after the chunk's clock reading sends nothing;
    one at least 0.8 s after it, with the speaking flag clear and the
    microphone enabled, sends the frame it has read." *)
Definition cooled_down (c : client) (chunk : receiver_env)
    (later : list step) (env : sender_env) : Prop :=
  let c' := after_chunk c chunk later in
  let out := fst (_audio_sender_iter c' env) in
  (snd_now env - rcv_now chunk < 8 # 10 -> filter is_append out = [])
  /\ (8 # 10 <= snd_now env - rcv_now chunk ->
      _assistant_speaking c' = false ->
      _mic_enabled c' = true ->
      _stop_flag c' = false ->
      _in_stream c' <> None ->
      forall data o,
        snd_read env = ReadOk data o ->
        filter is_append out = [WsSend (InputAudioBufferAppend data)]).

(** ** Order of the teardown *)

Definition is_release (e : effect) : bool :=
  match e with StreamStop _ | StreamClose _ => true | _ => false end.

Definition is_ws_close (e : effect) : bool :=
  match e with WsClose => true | _ => false end.

(** Position of the first effect of a kind in a trace. *)
Fixpoint first_index (p : effect -> bool) (tr : list effect) : option nat :=
  match tr with
  | [] => None
  | e :: rest => if p e then Some O else option_map S (first_index p rest)
  end.

(** "The streams are released and the connection is closed, the release
    coming first." *)
Definition released_then_closed (tr : list effect) : Prop :=
  exists i j,
    first_index is_release tr = Some i
    /\ first_index is_ws_close tr = Some j
    /\ (i < j)%nat.

(** The other way round. *)
Definition closed_then_released (tr : list effect) : Prop :=
  exists i j,
    first_index is_release tr = Some i
    /\ first_index is_ws_close tr = Some j
    /\ (j < i)%nat.

(** What the pipelines and the control calls other than [stop] can do, and
    what [stop] can do. *)
Definition pipeline_effect (e : effect) : bool :=
  match e with
  | Status _ | ServerError _ | EventText _ | UserTranscript _ | AudioLevel _
  | WsSend _ | OutStreamWrite _ | Sleep _ | ScheduleSessionUpdate => true
  | _ => false
  end.

Definition stop_effect (e : effect) : bool :=
  match e with
  | ScheduleWsClose | StreamStop _ | StreamClose _ | ThreadJoin _ => true
  | _ => false
  end.

Definition is_stop (s : step) : bool :=
  match s with Stop => true | _ => false end.

(** A session that ends because both pipelines lose their blocking call. *)
Definition lost (msg : string) : exn := OtherException msg.

Definition dropped_session : session_env :=
  mkSessionEnv AudioOpened None None
    [SenderTurn (reads_frame 1);
     ReceiverTurn
       (mkReceiverEnv (RecvRaises (ConnectionClosedError "1006")) false 2
          None false false None);
     SenderTurn
       (mkSenderEnv (ReadOk frame false) false 3 (Some (lost "closed"))
          false)].

(** A session ended by [stop()]. *)
Definition stopped_session : session_env :=
  mkSessionEnv AudioOpened None None
    [SenderTurn (reads_frame 1); Stop; SenderTurn (reads_frame 2);
     ReceiverTurn (receives ResponseAudioDone 3)].

(** A session whose initial [session.update] cannot be sent. *)
Definition refused_session : session_env :=
  mkSessionEnv AudioOpened None (Some (ConnectionClosedError "1008")) [].

(** How these sessions end, computed. *)
Definition dropped_exit : option (client * list effect * result) :=
  Eval vm_compute in _run_session running_client dropped_session.

Definition stopped_exit : option (client * list effect * result) :=
  Eval vm_compute in _run_session running_client stopped_session.

Definition refused_exit : option (client * list effect * result) :=
  Eval vm_compute in _run_session running_client refused_session.

Definition trace_of (x : option (client * list effect * result))
    : list effect :=
  match x with Some (_, tr, _) => tr | None => [] end.

(** ** Backoff *)

(** The number of 100 ms sleeps after a session that raised [e]: "about 3 s"
    after a connection closed by the peer, "about 5 s" after anything else. *)
Definition backoff (e : exn) : nat :=
  match e with
  | ConnectionClosedError _ => 30%nat
  | OtherException _ => 50%nat
  end.

(** ** The rest of the control API

    The attributes that configure a session and that [client] leaves out.
    [authorization] is [ws_headers["Authorization"]]. *)
Record config := mkConfig {
  api_key : string;
  model : string;
  instructions : string;
  voice : string;
  authorization : string
}.

Definition DEFAULT_MODEL : string := "gpt-4o-realtime-preview".

Definition default_instructions : string :=
  ("You are an intelligent, fast voice assistant named Cuby. "
   ++ "Speak primarily in Persian (Farsi) when user speaks in Persian; "
   ++ "otherwise, switch to the user's language. Keep answers concise "
   ++ "unless explicitly asked for details.")%string.

Definition bearer (key : string) : string := ("Bearer " ++ key)%string.

(** The configuration part of [__init__]; [env_model] is the environment
    variable [OPENAI_REALTIME_MODEL], [None] when it is not set. *)
Definition init_config (api_key0 : string) (model0 : option string)
    (env_model : option string) (instructions0 : option string)
    (voice0 : string) : config :=
  mkConfig api_key0
    (or_else model0
       (match env_model with Some m => m | None => DEFAULT_MODEL end))
    (or_else instructions0 default_instructions)
    voice0 (bearer api_key0).

(** [set_instructions]: nothing at all on an empty text; otherwise the local
    copy is replaced and, in a live session, an update is scheduled. *)
Definition set_instructions (text : string) (c : client) (k : config)
    : config * list effect :=
  if nonempty text then
    (mkConfig (api_key k) (model k) text (voice k) (authorization k),
     live_session_update c)
  else (k, []).

Definition set_voice (v : string) (k : config) : config :=
  if nonempty v
  then mkConfig (api_key k) (model k) (instructions k) v (authorization k)
  else k.

(** [set_api_key]: [api_key or ""], and the header rebuilt from it. *)
Definition set_api_key (key : option string) (k : config) : config :=
  let a := or_else key "" in
  mkConfig a (model k) (instructions k) (voice k) (bearer a).

(** A sequence of configuration calls from the UI thread. *)
Inductive config_call :=
| SetInstructions (text : string)
| SetVoice (v : string)
| SetApiKey (key : option string).

Definition configure (c : client) (k : config) (call : config_call)
    : config :=
  match call with
  | SetInstructions text => fst (set_instructions text c k)
  | SetVoice v => set_voice v k
  | SetApiKey key => set_api_key key k
  end.

(** [submit_text] and [request_response]: the coroutine handed to the
    session's loop, [None] when nothing is scheduled. *)
Definition submit_text (text : string) (c : client)
    : option (websocket * string) :=
  if negb (nonempty text) || negb (_loop c) || negb (_connected c) then None
  else
    match _current_ws c with
    | None => None
    | Some ws => Some (ws, text)
    end.

Definition request_response (c : client) : option websocket :=
  if negb (_loop c) || negb (_connected c) then None else _current_ws c.

(** What the world decides while [_send_user_text] runs: whether the first
    and the second [ws.send] raise, and the stop flag as seen in the
    [except] branch. *)
Record typed_env := mkTypedEnv {
  typ_item : option exn;
  typ_response : option exn;
  typ_stopped : bool
}.

Definition send_failed (c : client) (stopped : bool) (label : string)
    (e : exn) : list effect :=
  if stopped then []
  else call (on_server_error c)
         (ServerError (ErrorText (label ++ exn_message e)%string)).

Definition _send_user_text (c : client) (text : string) (env : typed_env)
    : list effect :=
  match typ_item env with
  | Some e =>
    WsSend (ConversationItemCreate text)
    :: send_failed c (typ_stopped env) "send_user_text error: " e
  | None =>
    match typ_response env with
    | Some e =>
      WsSend (ConversationItemCreate text) :: WsSend ResponseCreate
      :: send_failed c (typ_stopped env) "send_user_text error: " e
    | None => [WsSend (ConversationItemCreate text); WsSend ResponseCreate]
    end
  end.

Definition _send_response_create (c : client) (raises : option exn)
    (stopped : bool) : list effect :=
  match raises with
  | Some e =>
    WsSend ResponseCreate
    :: send_failed c stopped "request_response error: " e
  | None => [WsSend ResponseCreate]
  end.

(** [_thread_main]: the loop exists exactly while [_reconnect_loop] runs. *)
Definition _thread_main (fuel : nat) (c : client) (stop : nat -> bool)
    (outcome : nat -> result) : client * list effect * bool :=
  let '(tr, ended) := _reconnect_loop fuel (set_loop true c) stop outcome O O in
  (if ended then set_loop false c else set_loop true c, tr, ended).

(** ** Vocabulary for the further properties *)

(** The wire messages of a trace, in order, and the frames among them. *)
Definition sent (tr : list effect) : list wire_out :=
  flat_map (fun e => match e with WsSend m => [m] | _ => [] end) tr.

Definition appended (tr : list effect) : list bytes :=
  flat_map
    (fun e =>
       match e with
       | WsSend (InputAudioBufferAppend data) => [data]
       | _ => []
       end) tr.

(** The frames the sender's reads deliver along a schedule, in order. *)
Definition frames_read (sched : list step) : list bytes :=
  flat_map
    (fun s =>
       match s with
       | SenderTurn env =>
         match snd_read env with ReadOk data _ => [data] | _ => [] end
       | _ => []
       end) sched.

(** [l1] is [l2] with some elements left out. *)
Inductive subseq {A : Type} : list A -> list A -> Prop :=
| subseq_nil : subseq [] []
| subseq_skip x l1 l2 : subseq l1 l2 -> subseq l1 (x :: l2)
| subseq_take x l1 l2 : subseq l1 l2 -> subseq (x :: l1) (x :: l2).

(** Anything that crosses the connection or reaches the speaker or the
    transcript callbacks. *)
Definition is_traffic (e : effect) : bool :=
  match e with
  | WsSend _ | OutStreamWrite _ | EventText _ | UserTranscript _
  | AudioLevel _ | ServerError _ => true
  | _ => false
  end.

Definition is_playback (e : effect) : bool :=
  match e with OutStreamWrite _ | AudioLevel _ => true | _ => false end.

(** A turn in which the receiver gets one of the two done events. *)
Definition is_done (s : step) : bool :=
  match s with
  | ReceiverTurn env =>
    match rcv_recv env with
    | RecvOk (ResponseTextDone _) | RecvOk (ResponseAudioTranscriptDone _) =>
      true
    | _ => false
    end
  | _ => false
  end.

(** A turn of the receiver that may raise: the text does not parse, or an
    audio payload does not decode. *)
Definition may_raise (s : step) : bool :=
  match s with
  | ReceiverTurn env =>
    match rcv_recv env with
    | RecvMalformed => true
    | RecvOk (ResponseAudioDelta _) =>
      match rcv_decoded env with None => true | Some _ => false end
    | _ => false
    end
  | _ => false
  end.

Definition audio_deltas (frags : list string) : list event :=
  map (fun f => ResponseAudioTranscriptDelta (Some f)) frags.

(** A session in which the output stream cannot be created, and one in
    which the connection cannot be made. *)
Definition deaf_session : session_env :=
  mkSessionEnv (OutputStreamRaises (OtherException "no device")) None None
    [].

Definition unreachable_session : session_env :=
  mkSessionEnv AudioOpened (Some (OtherException "timed out")) None [].

(** A session started right after the VAD parameters were set out of range,
    and how it ends. *)
Definition retuned_client : client :=
  fst (set_vad_params (Some (25 # 10)) (Some 50%Z) running_client).

Definition retuned_exit : option (client * list effect * result) :=
  Eval vm_compute in _run_session retuned_client refused_session.

(** ** Threads that outlive [stop()]

    [stop()] waits at most 3 s for the thread and then drops the attribute
    whether the thread has ended or not; [stop] therefore leaves
    [live_threads] alone, and the end of a thread is an event of its own. *)
Definition thread_exits (t : thread_id) (c : client) : client :=
  mkClient (vad_threshold c) (vad_silence_ms c) (_thread c) (_loop c)
    (_stop_flag c) (_mic_enabled c) (_speaker_enabled c) (_connected c)
    (_in_stream c) (_out_stream c) (_current_ws c) (_assistant_speaking c)
    (_last_assistant_audio_time c) (_assistant_cooldown_sec c)
    (_assistant_text_buffer c) (_assistant_audio_buffer c)
    (on_event_text c) (on_server_error c) (on_status c) (on_ws_state c)
    (on_audio_level c) (on_user_transcript c) (spawned c)
    (filter (fun u => negb (Nat.eqb u t)) (live_threads c)).

(** "Two calls of [start()] in a row leave exactly one active session
    thread." *)
Definition one_session_thread (c : client) : Prop :=
  length (live_threads (fst (start (fst (start c))))) = 1%nat.

(** The client after [start()] and a [stop()] whose join has timed out: the
    first thread is still alive and the attribute is [None]. *)
Definition lingering_client : client := fst (stop (fst (start window_client))).

(** "An error event with another code gives exactly one server-error
    notification." *)
Definition error_reported_once (c : client) (env : receiver_env) : Prop :=
  length (server_errors (snd (fst (_audio_receiver_iter c env)))) = 1%nat.

(** ** A session that starts with a stale echo guard *)

(** A step that lets the sender run on: a read that succeeds and a send
    that does not fail, an inbound message that is no audio chunk and can be
    parsed, or a control call other than [stop()]. *)
Definition steady (s : step) : bool :=
  match s with
  | SenderTurn env =>
    match snd_read env, snd_send env with
    | ReadOk _ _, None => true
    | _, _ => false
    end
  | ReceiverTurn _ => negb (is_chunk s) && negb (may_raise s)
  | ToggleMic _ | ToggleSpeaker _ | SetVadParams _ _ => true
  | Stop => false
  end.

(** The frames read along a schedule while the microphone is enabled, [mic]
    being its state at the start. *)
Definition mic_after (mic : bool) (s : step) : bool :=
  match s with ToggleMic enabled => enabled | _ => mic end.

Fixpoint heard (mic : bool) (sched : list step) : list bytes :=
  match sched with
  | [] => []
  | s :: rest =>
    (if mic then frames_read [s] else []) ++ heard (mic_after mic s) rest
  end.

(** The sender is under way in a session that nothing has ended, and no
    audio chunk has been recorded. *)
Definition unhindered (st : pipelines) : Prop :=
  p_raised st = None
  /\ p_sender st <> Done
  /\ _stop_flag (p_client st) = false
  /\ _in_stream (p_client st) <> None
  /\ _assistant_speaking (p_client st) = false
  /\ _last_assistant_audio_time (p_client st) = 0.

(** The running client as an earlier session may have left it: the
    assistant was speaking and its last chunk came at clock reading 100. *)
Definition stale_client : client :=
  set_assistant_speaking true
    (set_last_assistant_audio_time 100 running_client).

Definition early_frame : bytes := [Byte.x2a; Byte.x00].

(** A session in which a frame is read 0.1 s after that reading, before any
    chunk has come, and which [stop()] then ends. *)
Definition fresh_session : session_env :=
  mkSessionEnv AudioOpened None None
    [ReceiverTurn (receives (ResponseTextDelta (Some "Hi")) (1000 # 10));
     SenderTurn
       (mkSenderEnv (ReadOk early_frame false) false (1001 # 10) None false);
     Stop; SenderTurn (reads_frame 102);
     ReceiverTurn (receives ResponseAudioDone 103)].

Definition fresh_exit : option (client * list effect * result) :=
  Eval vm_compute in _run_session stale_client fresh_session.

(** A stream has been released in a trace: [stop()] then [close()] on it. *)
Definition released (x : stream) (tr : list effect) : Prop :=
  exists l1 l2, tr = l1 ++ StreamStop x :: StreamClose x :: l2.

(** * Properties *)

(** ** Comparisons *)

Lemma Qltb_true (x y : Q) : Qltb x y = true <-> x < y.
Proof.
  unfold Qltb. rewrite negb_true_iff, <- not_true_iff_false, Qle_bool_iff.
  split; [apply Qnot_le_lt | apply Qlt_not_le].
Qed.

Lemma Qltb_false (x y : Q) : Qltb x y = false <-> y <= x.
Proof.
  unfold Qltb. rewrite negb_false_iff. apply Qle_bool_iff.
Qed.

Lemma Qltb_spec (x y : Q) : reflect (x < y) (Qltb x y).
Proof.
  destruct (Qltb x y) eqn:E; constructor.
  - now apply Qltb_true.
  - apply Qltb_false in E. now apply Qle_not_lt.
Qed.

Lemma py_min_spec (a b : Q) :
  (b < a /\ py_min a b = b) \/ (a <= b /\ py_min a b = a).
Proof.
  unfold py_min. destruct (Qltb_spec b a) as [H | H]; [left | right]; split;
    trivial. now apply Qnot_lt_le.
Qed.

Lemma py_max_spec (a b : Q) :
  (a < b /\ py_max a b = b) \/ (b <= a /\ py_max a b = a).
Proof.
  unfold py_max. destruct (Qltb_spec a b) as [H | H]; [left | right]; split;
    trivial. now apply Qnot_lt_le.
Qed.

Lemma py_max_int_max (a b : Z) : py_max_int a b = Z.max a b.
Proof.
  unfold py_max_int. destruct (Z.ltb_spec a b); lia.
Qed.

(** ** Control API *)

Lemma clamp_threshold (t : Q) :
  py_max 0 (py_min 1 t) == clamp_unit t /\ 0 <= py_max 0 (py_min 1 t) <= 1.
Proof.
  unfold clamp_unit.
  destruct (py_min_spec 1 t) as [[H1 ->] | [H1 ->]];
    [destruct (py_max_spec 0 t) as [[H0 ->] | [H0 ->]]
    |destruct (py_max_spec 0 1) as [[H0 ->] | [H0 ->]]];
    destruct (Qlt_le_dec t 0); try destruct (Qlt_le_dec 1 t); lra.
Qed.

(** C4.  After [set_vad_params], a supplied threshold is stored clamped into
    [0,1] and a supplied silence window is stored raised to at least 100;
    supplying 2.5 stores 1 and supplying 50 stores 100.  An argument that is
    not supplied leaves its attribute as it was. *)
Theorem set_vad_params_clamps (c : client) (t : Q) (s : Z)
    (threshold : option Q) (silence_ms : option Z) :
  vad_threshold (fst (set_vad_params (Some t) silence_ms c)) == clamp_unit t
  /\ 0 <= vad_threshold (fst (set_vad_params (Some t) silence_ms c)) <= 1
  /\ vad_silence_ms (fst (set_vad_params threshold (Some s) c)) = Z.max 100 s
  /\ vad_threshold (fst (set_vad_params (Some (25 # 10)) silence_ms c)) = 1
  /\ vad_silence_ms (fst (set_vad_params threshold (Some 50%Z) c)) = 100%Z
  /\ vad_threshold (fst (set_vad_params None silence_ms c)) = vad_threshold c
  /\ vad_silence_ms (fst (set_vad_params threshold None c))
     = vad_silence_ms c.
Proof.
  pose proof (clamp_threshold t) as [Hc Hb].
  repeat split; destruct threshold, silence_ms; simpl;
    try apply py_max_int_max; trivial; apply Hb.
Qed.

Lemma start_alive (c : client) : thread_is_alive (fst (start c)) = true.
Proof.
  unfold start. destruct (thread_is_alive c) eqn:E; simpl; trivial.
  unfold thread_is_alive. simpl. now rewrite Nat.eqb_refl.
Qed.




(** ** The send pipeline *)

Lemma call_not_append (cb : bool) (e : effect) :
  is_append e = false -> filter is_append (call cb e) = [].
Proof.
  intros H. destruct cb; simpl; trivial. now rewrite H.
Qed.

Lemma suppressed_speaking (c : client) (now : Q) :
  _assistant_speaking c = true -> suppressed c now <> None.
Proof.
  unfold suppressed. intros ->. now destruct (_mic_enabled c).
Qed.

(** A turn of the sender in which a test says [continue] sends nothing. *)
Lemma sender_suppressed_silent (c : client) (env : sender_env) :
  suppressed c (snd_now env) <> None ->
  filter is_append (fst (_audio_sender_iter c env)) = [].
Proof.
  intros H. unfold _audio_sender_iter.
  destruct (_stop_flag c); trivial.
  destruct (_in_stream c); trivial.
  destruct (snd_read env).
  - destruct (suppressed c (snd_now env)); [reflexivity | contradiction].
  - destruct (snd_stop_after_read env); trivial.
    now apply call_not_append.
Qed.

(** C1.  In a turn of the send pipeline that finds the assistant-speaking
    flag set, no [input_audio_buffer.append] is sent, whether the microphone
    is enabled or muted. *)
Theorem speaking_sends_nothing (c : client) (env : sender_env) :
  _assistant_speaking c = true ->
  filter is_append (fst (_audio_sender_iter c env)) = [].
Proof.
  intros H. apply sender_suppressed_silent. now apply suppressed_speaking.
Qed.

Lemma speaking_sends_nothing_witness :
  filter is_append
    (fst (_audio_sender_iter (set_assistant_speaking true live_client)
            (reads_frame 5))) = []
  /\ filter is_append
       (fst (_audio_sender_iter
               (set_mic_enabled false
                  (set_assistant_speaking true live_client))
               (reads_frame 5))) = [].
Proof.
  split.
  - apply (speaking_sends_nothing
             (set_assistant_speaking true live_client)). reflexivity.
  - apply (speaking_sends_nothing
             (set_mic_enabled false
                (set_assistant_speaking true live_client))). reflexivity.
Defined.

(** ** The receive pipeline *)

Lemma append_empty (s : string) : (s ++ "")%string = s.
Proof. induction s as [| a s IH]; simpl; congruence. Qed.

Lemma append_append (s t u : string) :
  ((s ++ t) ++ u)%string = (s ++ (t ++ u))%string.
Proof. induction s as [| a s IH]; simpl; congruence. Qed.

Lemma nonempty_false (s : string) : nonempty s = false <-> s = "".
Proof. destruct s; simpl; split; congruence. Qed.

Lemma nonempty_true (s : string) : nonempty s = true <-> s <> "".
Proof. destruct s; simpl; split; congruence. Qed.

(** Running the loop over two batches of turns. *)
Lemma receiver_loop_app (c c1 : client) (e1 e2 : list receiver_env)
    (o1 : list effect) :
  receiver_loop c e1 = (c1, o1, Continue) ->
  receiver_loop c (e1 ++ e2)
  = (fst (fst (receiver_loop c1 e2)), o1 ++ snd (fst (receiver_loop c1 e2)),
     snd (receiver_loop c1 e2)).
Proof.
  revert c o1. induction e1 as [| env e1 IH]; intros c o1 H; simpl in *.
  - inversion H; subst. now destruct (receiver_loop c1 e2) as [[? ?] ?].
  - destruct (_audio_receiver_iter c env) as [[c' o'] k].
    destruct k; try discriminate.
    destruct (receiver_loop c' e1) as [[c'' o''] k''] eqn:E.
    inversion H; subst. rewrite (IH _ _ E).
    destruct (receiver_loop c1 e2) as [[? ?] ?]; simpl.
    now rewrite app_assoc.
Qed.

(** Text deltas only grow the text buffer. *)
Lemma text_deltas_accumulate (frags : list string) :
  forall (envs : list receiver_env) (c : client),
    _stop_flag c = false ->
    delivers envs (text_deltas frags) ->
    exists c',
      receiver_loop c envs = (c', [], Continue)
      /\ _assistant_text_buffer c'
         = (_assistant_text_buffer c ++ joined frags)%string
      /\ _assistant_audio_buffer c' = _assistant_audio_buffer c
      /\ _stop_flag c' = false
      /\ on_event_text c' = on_event_text c.
Proof.
  unfold delivers.
  induction frags as [| f frags IH]; intros [| env envs] c Hs Hd;
    try discriminate; simpl in *.
  - exists c. now rewrite append_empty.
  - injection Hd as He Hd.
    unfold _audio_receiver_iter. rewrite Hs, He.
    destruct f as [| a f]; simpl.
    + destruct (IH envs c Hs Hd) as (c' & -> & Ht & Ha & Hs' & Ho).
      now exists c'.
    + destruct (IH envs
                  (set_assistant_text_buffer
                     (_assistant_text_buffer c ++ String a f)%string c)
                  Hs Hd)
        as (c' & -> & Ht & Ha & Hs' & Ho).
      exists c'. simpl in *. now rewrite Ht, append_append.
Qed.

(** What one [response.text.done] without final text does. *)
Lemma text_done_step (c : client) (env : receiver_env) :
  _stop_flag c = false ->
  rcv_recv env = RecvOk (ResponseTextDone None) ->
  _audio_receiver_iter c env
  = (set_assistant_audio_buffer "" (set_assistant_text_buffer "" c),
     if nonempty (_assistant_text_buffer c) && on_event_text c
     then [EventText (_assistant_text_buffer c)] else [],
     Continue).
Proof.
  intros Hs He. unfold _audio_receiver_iter. now rewrite Hs, He.
Qed.







(** A run of "response already in flight" errors leaves no trace. *)
Lemma in_flight_errors_silent (n : nat) :
  forall (envs : list receiver_env) (c : client),
    delivers envs (repeat (Error (Some already_active)) n) ->
    fst (receiver_loop c envs) = (c, []).
Proof.
  unfold delivers.
  induction n as [| n IH]; intros [| env envs] c Hd; try discriminate;
    trivial.
  simpl in Hd. injection Hd as He Hd. simpl.
  unfold _audio_receiver_iter. rewrite He.
  destruct (_stop_flag c); trivial. simpl.
  specialize (IH envs c Hd).
  destruct (receiver_loop c envs) as [[c' o'] k']. simpl in *.
  now inversion IH.
Qed.

(** C7, as the code has it.  An [error] event whose code is
    [conversation_already_has_active_response] produces no notification and
    leaves every attribute as it was, and so does any number of them in a
    row; an [error] event with any other code, or with none, leaves every
    attribute as it was too, and gives exactly one server-error
    notification when an [on_server_error] callback is assigned and none
    when it is not. *)
Theorem in_flight_error_ignored (c : client) (env : receiver_env)
    (envs : list receiver_env) (n : nat) (code : option string) :
  (rcv_recv env = RecvOk (Error (Some already_active)) ->
   fst (_audio_receiver_iter c env) = (c, []))
  /\ (delivers envs (repeat (Error (Some already_active)) n) ->
      fst (receiver_loop c envs) = (c, []))
  /\ (_stop_flag c = false ->
      code <> Some already_active ->
      rcv_recv env = RecvOk (Error code) ->
      _audio_receiver_iter c env
      = (c,
         call (on_server_error c) (ServerError (ErrorOfEvent (Error code))),
         Continue)
      /\ (on_server_error c = true ->
          snd (fst (_audio_receiver_iter c env))
          = [ServerError (ErrorOfEvent (Error code))]
          /\ error_reported_once c env)
      /\ (on_server_error c = false ->
          snd (fst (_audio_receiver_iter c env)) = [])).
Proof.
  split; [| split].
  - intros He. unfold _audio_receiver_iter. rewrite He.
    now destruct (_stop_flag c).
  - apply in_flight_errors_silent.
  - intros Hs Hc He. unfold _audio_receiver_iter. rewrite Hs, He.
    assert (E : dispatch c (Error code) env
                = (c, call (on_server_error c)
                        (ServerError (ErrorOfEvent (Error code))),
                   Continue)).
    { simpl. destruct code as [k |]; trivial.
      destruct (String.eqb_spec k already_active); trivial. congruence. }
    unfold error_reported_once, _audio_receiver_iter.
    rewrite Hs, He, E. cbn [fst snd].
    split; [trivial |].
    split; intros Ho; rewrite Ho; simpl; auto.
Qed.

Lemma in_flight_error_ignored_witness :
  let again := receives (Error (Some already_active)) 1 in
  let other := receives (Error (Some "rate_limit_exceeded")) 1 in
  server_errors (snd (fst (receiver_loop live_client [again; again; again])))
  = []
  /\ fst (fst (receiver_loop live_client [again; again; again]))
     = live_client
  /\ server_errors (snd (fst (_audio_receiver_iter live_client other)))
     = [ErrorOfEvent (Error (Some "rate_limit_exceeded"))]
  /\ error_reported_once live_client other.
Proof.
  intros again other.
  pose proof (in_flight_error_ignored live_client other
                [again; again; again] 3 (Some "rate_limit_exceeded"))
    as (_ & H3 & H1).
  rewrite (H3 eq_refl).
  destruct (H1 eq_refl ltac:(discriminate) eq_refl) as (_ & H & _).
  destruct (H eq_refl) as [Ht Ho].
  rewrite Ht.
  split; [reflexivity |]. split; [reflexivity |].
  split; [reflexivity | exact Ho].
Defined.

(** C7 as stated fails on a client as the constructor leaves it, with no
    [on_server_error] callback: an [error] event with another code passes
    without any notification. *)
Lemma unhandled_error_emits_nothing :
  let other := receives (Error (Some "rate_limit_exceeded")) 1 in
  on_server_error default_client = false
  /\ _stop_flag default_client = false
  /\ _audio_receiver_iter default_client other
     = (default_client, [], Continue)
  /\ ~ error_reported_once default_client other.
Proof.
  intros other. repeat split.
  unfold error_reported_once. vm_compute. discriminate.
Qed.

(** ** The echo guard *)

Ltac branches :=
  repeat (match goal with
          | |- context [match ?x with _ => _ end] => destruct x eqn:?
          end; simpl in *; try discriminate; auto).

(** The receiver either leaves the recorded time alone or sets it to its own
    clock reading; it never touches the cooldown. *)
Lemma receiver_records (c : client) (env : receiver_env) :
  let c' := fst (fst (_audio_receiver_iter c env)) in
  (_last_assistant_audio_time c' = _last_assistant_audio_time c
   \/ _last_assistant_audio_time c' = rcv_now env)
  /\ _assistant_cooldown_sec c' = _assistant_cooldown_sec c.
Proof.
  unfold _audio_receiver_iter, dispatch. branches.
Qed.

(** Anything but an audio chunk leaves the recorded time alone and does not
    raise the speaking flag. *)
Lemma receiver_other (c : client) (env : receiver_env) :
  is_chunk (ReceiverTurn env) = false ->
  let c' := fst (fst (_audio_receiver_iter c env)) in
  _last_assistant_audio_time c' = _last_assistant_audio_time c
  /\ (_assistant_speaking c = false -> _assistant_speaking c' = false).
Proof.
  unfold is_chunk, _audio_receiver_iter, dispatch. intros H. branches.
Qed.

Lemma sender_turn_client (st : pipelines) (env : sender_env) :
  p_client (fst (turn st (SenderTurn env))) = p_client st.
Proof.
  simpl. destruct (p_sender st); trivial;
    now destruct (_audio_sender_iter (p_client st) env).
Qed.

Lemma receiver_turn_client (st : pipelines) (env : receiver_env) :
  p_client (fst (turn st (ReceiverTurn env))) = p_client st
  \/ p_client (fst (turn st (ReceiverTurn env)))
     = fst (fst (_audio_receiver_iter (p_client st) env)).
Proof.
  simpl. destruct (p_receiver st); auto;
    destruct (_audio_receiver_iter (p_client st) env) as [[? ?] ?]; auto.
Qed.

(** A property of the client that every turn of a schedule preserves holds
    when the schedule has run. *)
Lemma run_turns_invariant (P : client -> Prop) (A : step -> Prop) :
  (forall st s, P (p_client st) -> A s -> P (p_client (fst (turn st s)))) ->
  forall sched st,
    P (p_client st) -> Forall A sched ->
    P (p_client (fst (run_turns st sched))).
Proof.
  intros Hstep. induction sched as [| s sched IH]; intros st HP HA; simpl.
  - exact HP.
  - inversion HA; subst. destruct (gathered st); trivial.
    specialize (Hstep st s HP H1).
    destruct (turn st s) as [st1 o1]. specialize (IH st1 Hstep H2).
    now destruct (run_turns st1 sched).
Qed.

Lemma turn_keeps_record (t : Q) (st : pipelines) (s : step) :
  t <= _last_assistant_audio_time (p_client st)
  /\ _assistant_cooldown_sec (p_client st) = 8 # 10 ->
  not_before t s ->
  t <= _last_assistant_audio_time (p_client (fst (turn st s)))
  /\ _assistant_cooldown_sec (p_client (fst (turn st s))) = 8 # 10.
Proof.
  intros [Hl Hc] Hs. destruct s.
  - now rewrite sender_turn_client.
  - destruct (receiver_turn_client st env) as [-> | ->]; auto.
    destruct (receiver_records (p_client st) env) as [[-> | ->] ->]; auto.
  - simpl; auto.
  - simpl; auto.
  - simpl. destruct threshold, silence_ms; auto.
  - simpl; auto.
Qed.

Lemma turn_keeps_quiet (st : pipelines) (s : step) :
  _last_assistant_audio_time (p_client st) = 0
  /\ _assistant_speaking (p_client st) = false ->
  is_chunk s = false ->
  _last_assistant_audio_time (p_client (fst (turn st s))) = 0
  /\ _assistant_speaking (p_client (fst (turn st s))) = false.
Proof.
  intros [Hl Hc] Hs. destruct s.
  - now rewrite sender_turn_client.
  - destruct (receiver_turn_client st env) as [-> | ->]; auto.
    destruct (receiver_other (p_client st) env Hs) as [-> ?]; auto.
  - simpl; auto.
  - simpl; auto.
  - simpl. destruct threshold, silence_ms; auto.
  - simpl; auto.
Qed.

Lemma turn_keeps_time (t : Q) (st : pipelines) (s : step) :
  _last_assistant_audio_time (p_client st) = t ->
  is_chunk s = false ->
  _last_assistant_audio_time (p_client (fst (turn st s))) = t.
Proof.
  intros Hl Hs. destruct s.
  - now rewrite sender_turn_client.
  - destruct (receiver_turn_client st env) as [-> | ->]; auto.
    now destruct (receiver_other (p_client st) env Hs) as [-> ?].
  - simpl; auto.
  - simpl; auto.
  - simpl. destruct threshold, silence_ms; auto.
  - simpl; auto.
Qed.

Lemma run_turns_cons (st : pipelines) (s : step) (rest : list step) :
  gathered st = false ->
  fst (run_turns st (s :: rest)) = fst (run_turns (fst (turn st s)) rest).
Proof.
  intros H. simpl. rewrite H. destruct (turn st s) as [st1 o1]. simpl.
  now destruct (run_turns st1 rest).
Qed.

(** An audio chunk with a payload, received with the speaker enabled, raises
    the speaking flag and records the clock reading. *)
Lemma chunk_recorded (c : client) (chunk : receiver_env) (b64 : string)
    (raw : bytes) :
  _stop_flag c = false ->
  _speaker_enabled c = true ->
  rcv_recv chunk = RecvOk (ResponseAudioDelta (Some b64)) ->
  b64 <> "" ->
  rcv_decoded chunk = Some raw ->
  let c1 :=
    p_client (fst (turn (mkPipelines c Running Running None)
                     (ReceiverTurn chunk))) in
  _last_assistant_audio_time c1 = rcv_now chunk
  /\ _assistant_speaking c1 = true
  /\ _assistant_cooldown_sec c1 = _assistant_cooldown_sec c.
Proof.
  intros Hs Hp He Hb Hd. simpl. unfold _audio_receiver_iter, dispatch.
  rewrite Hs, He, Hp, Hd. destruct b64; [congruence |]. simpl.
  destruct (_out_stream c), (rcv_write_raises chunk),
    (rcv_stop_after_write chunk); simpl; auto.
Qed.

Lemma cooldown_suppresses (c : client) (now : Q) :
  0 < _last_assistant_audio_time c ->
  now - _last_assistant_audio_time c < _assistant_cooldown_sec c ->
  suppressed c now <> None.
Proof.
  intros H0 H1. unfold suppressed.
  apply Qltb_true in H0, H1. rewrite H0, H1.
  destruct (_mic_enabled c), (_assistant_speaking c); discriminate.
Qed.

Lemma not_suppressed (c : client) (now : Q) :
  _mic_enabled c = true ->
  _assistant_speaking c = false ->
  _last_assistant_audio_time c <= 0
  \/ _assistant_cooldown_sec c <= now - _last_assistant_audio_time c ->
  suppressed c now = None.
Proof.
  intros Hm Hs H. unfold suppressed. rewrite Hm, Hs. simpl.
  destruct H as [H | H]; apply Qltb_false in H; rewrite H; trivial.
  now rewrite andb_false_r.
Qed.

(** A turn of the sender that reads a frame and is not told to [continue]
    sends that frame, once. *)
Lemma sender_sends (c : client) (env : sender_env) (data : bytes)
    (o : bool) :
  _stop_flag c = false ->
  _in_stream c <> None ->
  snd_read env = ReadOk data o ->
  suppressed c (snd_now env) = None ->
  filter is_append (fst (_audio_sender_iter c env))
  = [WsSend (InputAudioBufferAppend data)].
Proof.
  intros Hs Hi Hr Hn. unfold _audio_sender_iter. rewrite Hs, Hr, Hn.
  destruct (_in_stream c); [| congruence].
  destruct (snd_send env); trivial.
  destruct (snd_stop_after_send env); trivial. simpl.
  now rewrite call_not_append.
Qed.




(** The sender holds a frame back for the cooldown only when a time has been
    recorded. *)
Lemma cooldown_needs_record (c : client) (now : Q) :
  suppressed c now = Some Cooldown -> 0 < _last_assistant_audio_time c.
Proof.
  unfold suppressed.
  destruct (_mic_enabled c), (_assistant_speaking c); simpl;
    try discriminate.
  destruct (Qltb_spec 0 (_last_assistant_audio_time c)); trivial.
  discriminate.
Qed.

(** ** The session *)

Lemma Forall_call (P : effect -> Prop) (cb : bool) (e : effect) :
  P e -> Forall P (call cb e).
Proof. destruct cb; simpl; auto. Qed.

Lemma Forall_greeting (P : effect -> Prop) (c : client) (t : task)
    (line : string) :
  P (Status (StatusText line)) -> Forall P (greeting c t line).
Proof. destruct t; simpl; auto using Forall_call. Qed.

Ltac kinds :=
  repeat match goal with
         | |- Forall _ [] => apply Forall_nil
         | |- Forall _ (_ :: _) => apply Forall_cons
         | |- Forall _ (_ ++ _) => apply Forall_app; split
         | |- Forall _ (call _ _) => apply Forall_call
         | |- Forall _ (greeting _ _ _) => apply Forall_greeting
         end;
  try reflexivity; try discriminate.

Lemma sender_effects (c : client) (env : sender_env) :
  Forall (fun e => pipeline_effect e = true)
    (fst (_audio_sender_iter c env)).
Proof. unfold _audio_sender_iter. branches; kinds. Qed.

Lemma receiver_effects (c : client) (env : receiver_env) :
  Forall (fun e => pipeline_effect e = true)
    (snd (fst (_audio_receiver_iter c env))).
Proof.
  unfold _audio_receiver_iter, dispatch, audio_level_effects.
  branches; kinds.
Qed.

Lemma receiver_keeps_streams (c : client) (env : receiver_env) :
  let c' := fst (fst (_audio_receiver_iter c env)) in
  _in_stream c' = _in_stream c /\ _out_stream c' = _out_stream c.
Proof. unfold _audio_receiver_iter, dispatch. branches. Qed.

Lemma release_effects (s : option stream) :
  Forall (fun e => stop_effect e = true) (release s).
Proof. destruct s; simpl; kinds. Qed.

(** Whatever a turn does is a pipeline effect, or an effect of [stop]. *)
Lemma turn_effects (st : pipelines) (s : step) :
  Forall (fun e => pipeline_effect e = true
                   \/ is_stop s = true /\ stop_effect e = true)
    (snd (turn st s)).
Proof.
  destruct s; simpl.
  - pose proof (sender_effects (p_client st) env) as H.
    destruct (p_sender st); simpl; trivial;
      destruct (_audio_sender_iter (p_client st) env) as [out k]; simpl in *;
      kinds; auto; eapply Forall_impl; eauto; simpl; auto.
  - pose proof (receiver_effects (p_client st) env) as H.
    destruct (p_receiver st); simpl; trivial;
      destruct (_audio_receiver_iter (p_client st) env) as [[c' out] k];
      simpl in *; kinds; auto; eapply Forall_impl; eauto; simpl; auto.
  - kinds; auto.
  - kinds; auto.
  - unfold live_session_update. branches; kinds; auto.
  - unfold thread_is_alive. kinds;
      try (eapply Forall_impl; [| apply release_effects]; simpl; auto);
      branches; kinds; auto.
Qed.

Lemma turn_keeps_streams (st : pipelines) (s : step) :
  is_stop s = false ->
  _in_stream (p_client (fst (turn st s))) = _in_stream (p_client st)
  /\ _out_stream (p_client (fst (turn st s))) = _out_stream (p_client st).
Proof.
  intros Hs. destruct s; try discriminate.
  - now rewrite sender_turn_client.
  - destruct (receiver_turn_client st env) as [-> | ->]; auto.
    apply receiver_keeps_streams.
  - simpl; auto.
  - simpl; auto.
  - simpl. destruct threshold, silence_ms; auto.
Qed.

Lemma run_turns_effects (sched : list step) :
  forall st,
    Forall (fun e => pipeline_effect e = true
                     \/ existsb is_stop sched = true /\ stop_effect e = true)
      (snd (run_turns st sched)).
Proof.
  induction sched as [| s sched IH]; intros st; simpl; [constructor |].
  destruct (gathered st); [constructor |].
  pose proof (turn_effects st s) as H1.
  destruct (turn st s) as [st1 o1]. specialize (IH st1).
  destruct (run_turns st1 sched) as [st2 o2]. simpl in *.
  apply Forall_app. split; eapply Forall_impl; eauto; simpl;
    intros e [H | [H H']]; auto; right; rewrite H; auto using orb_true_r.
Qed.

Lemma first_index_skip (p : effect -> bool) (pre l : list effect) :
  Forall (fun e => p e = false) pre ->
  first_index p (pre ++ l)
  = option_map (Nat.add (length pre)) (first_index p l).
Proof.
  induction 1 as [| e pre He _ IH]; simpl.
  - now destruct (first_index p l).
  - rewrite He, IH. now destruct (first_index p l).
Qed.

Lemma no_stop_steps (sched : list step) :
  existsb is_stop sched = false ->
  Forall (fun s => is_stop s = false) sched.
Proof.
  induction sched as [| s sched IH]; simpl; [constructor |].
  intros H. apply orb_false_iff in H as [H1 H2]. auto.
Qed.

Lemma Forall_release (P : effect -> Prop) (s : option stream) :
  (forall x, P (StreamStop x)) -> (forall x, P (StreamClose x)) ->
  Forall P (release s).
Proof. destruct s; simpl; auto. Qed.

(** Inside the [async with] block nothing closes the connection, and unless
    [stop()] is called nothing releases a stream. *)
Lemma session_body_shape (c c3 : client) (env : session_env)
    (ran : list effect) (r : result) :
  session_body c env = Some (c3, ran, r) ->
  Forall (fun e => is_ws_close e = false) ran
  /\ (existsb is_stop (ses_schedule env) = false ->
      Forall (fun e => is_release e = false) ran
      /\ _in_stream c3 = _in_stream c
      /\ _out_stream c3 = _out_stream c).
Proof.
  unfold session_body, _send_session_update.
  destruct (ses_update env) as [e |].
  - intros H. inversion H; subst. split; [kinds |]. intros _. split; kinds.
    now split.
  - pose proof (run_turns_effects (ses_schedule env)
                  (mkPipelines (session_connected c) NotStarted NotStarted
                     None)) as He.
    destruct (run_turns _ (ses_schedule env)) as [st ran'] eqn:Er.
    destruct (gathered st); [| discriminate].
    intros H. inversion H; subst. simpl in He. split.
    + kinds. eapply Forall_impl; [| exact He]. simpl.
      intros e [H1 | [_ H1]]; now destruct e.
    + intros Hn. rewrite Hn in He. split.
      * kinds. eapply Forall_impl; [| exact He]. simpl.
        intros e [H1 | [H1 _]]; [now destruct e | discriminate].
      * pose proof (run_turns_invariant
                      (fun d => _in_stream d = _in_stream c
                                /\ _out_stream d = _out_stream c)
                      (fun s => is_stop s = false)) as Hi.
        specialize (Hi ltac:(intros st0 s [<- <-]; apply turn_keeps_streams)
                       (ses_schedule env)
                       (mkPipelines (session_connected c) NotStarted
                          NotStarted None)
                       ltac:(split; reflexivity) (no_stop_steps _ Hn)).
        now rewrite Er in Hi.
Qed.

Lemma filter_none {A : Type} (p : A -> bool) (l : list A) :
  Forall (fun e => p e = false) l -> filter p l = [].
Proof.
  induction 1 as [| e l He _ IH]; simpl; trivial. now rewrite He.
Qed.

Lemma released_app_r (x : stream) (tr l : list effect) :
  released x tr -> released x (tr ++ l).
Proof.
  intros (l1 & l2 & ->). exists l1, (l2 ++ l).
  now rewrite <- app_assoc.
Qed.

Lemma released_app_l (x : stream) (tr l : list effect) :
  released x tr -> released x (l ++ tr).
Proof.
  intros (l1 & l2 & ->). exists (l ++ l1), l2.
  now rewrite <- app_assoc.
Qed.

Lemma released_cons (x : stream) (tr : list effect) (e : effect) :
  released x tr -> released x (e :: tr).
Proof. apply (released_app_l x tr [e]). Qed.

Lemma released_release (x : stream) : released x (release (Some x)).
Proof. now exists [], []. Qed.

(** A history invariant of the client and the trace so far that every turn
    preserves holds when the schedule has run. *)
Lemma run_turns_history (I : client -> list effect -> Prop) :
  (forall st s tr,
      I (p_client st) tr ->
      I (p_client (fst (turn st s))) (tr ++ snd (turn st s))) ->
  forall sched st tr,
    I (p_client st) tr ->
    I (p_client (fst (run_turns st sched)))
      (tr ++ snd (run_turns st sched)).
Proof.
  intros Hstep. induction sched as [| s sched IH]; intros st tr HI; simpl.
  - now rewrite app_nil_r.
  - destruct (gathered st); [simpl; now rewrite app_nil_r |].
    specialize (Hstep st s tr HI).
    destruct (turn st s) as [st1 o1].
    specialize (IH st1 (tr ++ o1) Hstep).
    destruct (run_turns st1 sched) as [st2 o2]. simpl in *.
    now rewrite app_assoc.
Qed.

(** Each stream is either still held or has been released. *)
Lemma turn_accounts (st : pipelines) (s : step) (tr : list effect) :
  (_in_stream (p_client st) = Some RawInputStream
   \/ released RawInputStream tr)
  /\ (_out_stream (p_client st) = Some RawOutputStream
      \/ released RawOutputStream tr) ->
  (_in_stream (p_client (fst (turn st s))) = Some RawInputStream
   \/ released RawInputStream (tr ++ snd (turn st s)))
  /\ (_out_stream (p_client (fst (turn st s))) = Some RawOutputStream
      \/ released RawOutputStream (tr ++ snd (turn st s))).
Proof.
  intros [Hi Ho].
  destruct (is_stop s) eqn:Es.
  - destruct s; try discriminate. simpl.
    split; right.
    + destruct Hi as [-> | Hi]; [| now apply released_app_r].
      apply released_app_l, released_app_l, released_app_r.
      apply released_release.
    + destruct Ho as [-> | Ho]; [| now apply released_app_r].
      apply released_app_l, released_app_l, released_app_l.
      apply released_app_r, released_release.
  - destruct (turn_keeps_streams st s Es) as [-> ->].
    split; [destruct Hi | destruct Ho]; auto using released_app_r.
Qed.

Lemma session_body_accounts (c c3 : client) (env : session_env)
    (ran : list effect) (r : result) :
  session_body c env = Some (c3, ran, r) ->
  _in_stream c = Some RawInputStream ->
  _out_stream c = Some RawOutputStream ->
  (_in_stream c3 = Some RawInputStream \/ released RawInputStream ran)
  /\ (_out_stream c3 = Some RawOutputStream
      \/ released RawOutputStream ran).
Proof.
  unfold session_body, _send_session_update. intros H Hi Ho.
  destruct (ses_update env) as [e |].
  - injection H as <- _ _. split; left; assumption.
  - pose proof (run_turns_history
                  (fun d tr =>
                     (_in_stream d = Some RawInputStream
                      \/ released RawInputStream tr)
                     /\ (_out_stream d = Some RawOutputStream
                         \/ released RawOutputStream tr))
                  turn_accounts (ses_schedule env)
                  (mkPipelines (session_connected c) NotStarted NotStarted
                     None) []
                  (conj (or_introl Hi) (or_introl Ho))) as Ha.
    destruct (run_turns _ (ses_schedule env)) as [st ran'] eqn:Er.
    destruct (gathered st); [| discriminate].
    injection H as <- <- _. cbn [fst snd app] in Ha.
    destruct Ha as [[Ha | Ha] [Hb | Hb]]; split; auto;
      right; apply released_app_l, released_cons, released_app_l;
      assumption.
Qed.




(** ** The reconnection loop *)

Lemma wait_no_stop (stop : nat -> bool) (n : nat) :
  (forall i, stop i = false) ->
  forall k,
    interruptible_wait n stop k = (repeat (Sleep (1 # 10)) n, (k + n)%nat).
Proof.
  intros Hs. induction n as [| n IH]; intros k; simpl.
  - now rewrite Nat.add_0_r.
  - rewrite Hs, IH. now rewrite Nat.add_succ_r.
Qed.

(** The wait ends at the first check that sees the flag set. *)
Lemma wait_interrupted (stop : nat -> bool) (n : nat) :
  forall j k,
    (j < n)%nat ->
    (forall i, (i < j)%nat -> stop (k + i)%nat = false) ->
    stop (k + j)%nat = true ->
    interruptible_wait n stop k
    = (repeat (Sleep (1 # 10)) j, S (k + j)).
Proof.
  induction n as [| n IH]; intros j k Hj Hb Hs; [lia |]. simpl.
  destruct j as [| j].
  - rewrite Nat.add_0_r in *. now rewrite Hs.
  - rewrite <- (Nat.add_0_r k) at 1. rewrite (Hb O) by lia.
    rewrite (IH j (S k)); try lia.
    + simpl. now rewrite Nat.add_succ_r.
    + intros i Hi. specialize (Hb (S i)). rewrite Nat.add_succ_r in Hb.
      apply Hb. lia.
    + now rewrite Nat.add_succ_r in Hs.
Qed.

Lemma wait_sleeps (stop : nat -> bool) (n : nat) :
  forall k,
    exists j, (j <= n)%nat
              /\ fst (interruptible_wait n stop k)
                 = repeat (Sleep (1 # 10)) j.
Proof.
  induction n as [| n IH]; intros k; simpl.
  - now exists O.
  - destruct (stop k); [exists O; split; [lia | reflexivity] |].
    destruct (IH (S k)) as (j & Hj & E).
    destruct (interruptible_wait n stop (S k)) as [tr k']. simpl in *.
    exists (S j). split; [lia |]. simpl. now rewrite E.
Qed.

Lemma sleeps_call (cb : bool) (e : effect) (tr : list effect) :
  (forall d, e <> Sleep d) -> sleeps (call cb e ++ tr) = sleeps tr.
Proof.
  intros H. destruct cb; simpl; trivial. destruct e; trivial.
  now destruct (H seconds).
Qed.

Lemma sleeps_repeat (d : Q) (n : nat) :
  sleeps (repeat (Sleep d) n) = repeat d n.
Proof. induction n as [| n IH]; simpl; congruence. Qed.

Lemma slept_call (cb : bool) (e : effect) (tr : list effect) :
  (forall d, e <> Sleep d) -> slept (call cb e ++ tr) = slept tr.
Proof.
  intros H. destruct cb; simpl; trivial. destruct e; trivial.
  now destruct (H seconds).
Qed.

Lemma after_raise (c : client) (stop : nat -> bool) (k : nat) (e : exn) :
  stop k = false ->
  sleeps (fst (fst (after_session c stop k (Raised e))))
  = sleeps (fst (interruptible_wait (backoff e) stop (S k)))
  /\ slept (fst (fst (after_session c stop k (Raised e))))
     = slept (fst (interruptible_wait (backoff e) stop (S k)))
  /\ snd (after_session c stop k (Raised e)) = Continue.
Proof.
  intros Hk. destruct e as [m | m]; unfold after_session, backoff;
    rewrite Hk.
  - destruct (interruptible_wait 30 stop (S k)) as [tr k']. cbn [fst snd].
    now rewrite sleeps_call, slept_call by discriminate.
  - destruct (interruptible_wait 50 stop (S k)) as [tr k']. cbn [fst snd].
    now rewrite sleeps_call, slept_call by discriminate.
Qed.

Lemma loop_retries (fuel : nat) (c : client) (stop : nat -> bool)
    (outcome : nat -> result) (k n : nat) :
  stop k = false ->
  snd (after_session c stop (S k) (outcome n)) = Continue ->
  fst (_reconnect_loop (S fuel) c stop outcome k n)
  = RunSession :: fst (fst (after_session c stop (S k) (outcome n)))
    ++ fst (_reconnect_loop fuel c stop outcome
              (snd (fst (after_session c stop (S k) (outcome n)))) (S n)).
Proof.
  intros Hk Hc. cbn [_reconnect_loop]. rewrite Hk.
  destruct (after_session c stop (S k) (outcome n)) as [[tr k'] ctl].
  simpl in *. subst ctl.
  now destruct (_reconnect_loop fuel c stop outcome k' (S n)).
Qed.

(** C9.  What the loop does once a session is over.  With no stop request:
    after a [ConnectionClosedError] thirty sleeps of 100 ms, 3 s in all;
    after any other exception fifty of them, 5 s in all; after a clean
    return one sleep of 0.3 s; and then the next session is run.  Every
    sleep of a backoff is 100 ms long and is preceded by a check of the stop
    flag: when the flag is first seen set at the [j]-th check, exactly [j]
    sleeps have been made and no other follows; when it is already set as the
    exception is caught, the loop is left at once. *)
Theorem reconnect_backoff (c : client) (stop : nat -> bool) (k : nat)
    (e : exn) (m : string) :
  ((forall i, stop i = false) ->
   sleeps (fst (fst (after_session c stop k
                       (Raised (ConnectionClosedError m)))))
   = repeat (1 # 10) 30
   /\ slept (fst (fst (after_session c stop k
                         (Raised (ConnectionClosedError m))))) == 3
   /\ sleeps (fst (fst (after_session c stop k
                          (Raised (OtherException m)))))
      = repeat (1 # 10) 50
   /\ slept (fst (fst (after_session c stop k
                         (Raised (OtherException m))))) == 5
   /\ fst (fst (after_session c stop k Returned)) = [Sleep (3 # 10)]
   /\ forall fuel outcome n,
        fst (_reconnect_loop (S fuel) c stop outcome k n)
        = RunSession :: fst (fst (after_session c stop (S k) (outcome n)))
          ++ fst (_reconnect_loop fuel c stop outcome
                    (snd (fst (after_session c stop (S k) (outcome n))))
                    (S n)))
  /\ (forall d,
        In d (sleeps (fst (fst (after_session c stop k (Raised e))))) ->
        d = 1 # 10)
  /\ (forall j,
        stop k = false ->
        (j < backoff e)%nat ->
        (forall i, (i < j)%nat -> stop (S k + i)%nat = false) ->
        stop (S k + j)%nat = true ->
        sleeps (fst (fst (after_session c stop k (Raised e))))
        = repeat (1 # 10) j)
  /\ (stop k = true ->
      after_session c stop k (Raised e) = ([], S k, Break)).
Proof.
  split; [| split; [| split]].
  - intros Hs.
    destruct (after_raise c stop k (ConnectionClosedError m) (Hs k))
      as (-> & -> & _).
    destruct (after_raise c stop k (OtherException m) (Hs k))
      as (-> & -> & _).
    unfold backoff. rewrite !wait_no_stop by trivial. cbn [fst].
    rewrite !sleeps_repeat.
    split; [reflexivity |]. split; [reflexivity |].
    split; [reflexivity |]. split; [reflexivity |].
    split; [simpl; now rewrite Hs |].
    intros fuel outcome n. apply loop_retries; trivial.
    destruct (outcome n) as [| [? | ?]]; unfold after_session;
      rewrite Hs; trivial;
      match goal with
      | |- context [interruptible_wait ?a stop ?b] =>
        now destruct (interruptible_wait a stop b)
      end.
  - intros d. destruct (stop k) eqn:Hk.
    + destruct e; simpl; rewrite Hk; simpl; tauto.
    + destruct (after_raise c stop k e Hk) as (-> & _).
      destruct (wait_sleeps stop (backoff e) (S k)) as (j & _ & ->).
      rewrite sleeps_repeat. apply repeat_spec.
  - intros j Hk Hj Hb Hs.
    destruct (after_raise c stop k e Hk) as (-> & _).
    rewrite (wait_interrupted stop (backoff e) j (S k)); trivial.
    apply sleeps_repeat.
  - intros Hk. destruct e; simpl; now rewrite Hk.
Qed.

Lemma reconnect_backoff_witness :
  let quiet := fun _ : nat => false in
  let asked := fun i : nat => Nat.leb 4 i in
  slept (fst (fst (after_session running_client quiet O
                     (Raised (ConnectionClosedError "1006"))))) == 3
  /\ slept (fst (fst (after_session running_client quiet O
                        (Raised (OtherException "timed out"))))) == 5
  /\ fst (fst (after_session running_client quiet O Returned))
     = [Sleep (3 # 10)]
  /\ sleeps (fst (fst (after_session running_client asked O
                         (Raised (OtherException "timed out")))))
     = [1 # 10; 1 # 10; 1 # 10]
  /\ after_session running_client asked 4
       (Raised (OtherException "timed out")) = ([], 5%nat, Break).
Proof.
  intros quiet asked.
  destruct (reconnect_backoff running_client quiet O
              (OtherException "timed out") "1006")
    as (Hq & _).
  destruct (Hq (fun _ => eq_refl)) as (_ & H3 & _).
  destruct (reconnect_backoff running_client quiet O
              (OtherException "timed out") "timed out")
    as (Hq' & _).
  destruct (Hq' (fun _ => eq_refl)) as (_ & _ & _ & H5 & H0 & _).
  destruct (reconnect_backoff running_client asked O
              (OtherException "timed out") "")
    as (_ & _ & Hi & _).
  destruct (reconnect_backoff running_client asked 4
              (OtherException "timed out") "")
    as (_ & _ & _ & Hb).
  split; [exact H3 |]. split; [exact H5 |]. split; [exact H0 |].
  split; [| exact (Hb eq_refl)].
  apply (Hi 3%nat eq_refl).
  - unfold backoff. lia.
  - intros [| [| [| i]]] Hlt; try reflexivity. lia.
  - reflexivity.
Defined.

(** * Further properties *)

(** ** Traces of a schedule *)

(** What a turn does is what the step it takes does, after the status line
    of a task that runs for the first time. *)
Lemma turn_cases (Q : effect -> Prop) (st : pipelines) (s : step) :
  (forall line, Q (Status (StatusText line))) ->
  match s with
  | SenderTurn env => Forall Q (fst (_audio_sender_iter (p_client st) env))
  | ReceiverTurn env =>
    Forall Q (snd (fst (_audio_receiver_iter (p_client st) env)))
  | ToggleMic _ | ToggleSpeaker _ => True
  | SetVadParams t m => Forall Q (snd (set_vad_params t m (p_client st)))
  | Stop => Forall Q (snd (stop (p_client st)))
  end ->
  Forall Q (snd (turn st s)).
Proof.
  intros Hq H. destruct s; simpl; trivial.
  - destruct (p_sender st); simpl; trivial;
      destruct (_audio_sender_iter (p_client st) env) as [out k];
      simpl in *; kinds; auto.
  - destruct (p_receiver st); simpl; trivial;
      destruct (_audio_receiver_iter (p_client st) env) as [[c' out] k];
      simpl in *; kinds; auto.
  - kinds; auto.
  - kinds; auto.
Qed.

(** A property of the client kept by every turn, and a property of effects
    that every turn taken under it has, hold along the whole schedule. *)
Lemma run_turns_trace (P : client -> Prop) (A : step -> Prop)
    (Q : effect -> Prop) :
  (forall st s, P (p_client st) -> A s ->
                P (p_client (fst (turn st s)))
                /\ Forall Q (snd (turn st s))) ->
  forall sched st,
    P (p_client st) -> Forall A sched ->
    P (p_client (fst (run_turns st sched)))
    /\ Forall Q (snd (run_turns st sched)).
Proof.
  intros Hstep. induction sched as [| s sched IH]; intros st HP HA; simpl.
  - split; [exact HP | constructor].
  - inversion HA; subst. destruct (gathered st); [split; auto |].
    destruct (Hstep st s HP H1) as [HP1 HQ1].
    destruct (turn st s) as [st1 o1].
    destruct (IH st1 HP1 H2) as [HP2 HQ2].
    destruct (run_turns st1 sched) as [st2 o2]. simpl in *.
    split; [exact HP2 |]. apply Forall_app. now split.
Qed.

Lemma appended_none (tr : list effect) :
  Forall (fun e => is_append e = false) tr -> appended tr = [].
Proof.
  induction 1 as [| e tr He _ IH]; simpl; trivial.
  rewrite IH. destruct e; trivial. destruct m; trivial. discriminate.
Qed.

Lemma receiver_never_sends (c : client) (env : receiver_env) :
  Forall (fun e => sent [e] = [])
    (snd (fst (_audio_receiver_iter c env))).
Proof.
  unfold _audio_receiver_iter, dispatch, audio_level_effects.
  branches; kinds.
Qed.

Lemma stop_never_sends (c : client) :
  Forall (fun e => is_traffic e = false) (snd (stop c)).
Proof.
  unfold stop, thread_is_alive. simpl.
  kinds; try (apply Forall_release; reflexivity); branches; kinds.
Qed.

Lemma vad_update_no_traffic (t : option Q) (m : option Z) (c : client) :
  Forall (fun e => is_traffic e = false) (snd (set_vad_params t m c)).
Proof.
  unfold set_vad_params, live_session_update. simpl. branches; kinds.
Qed.

Lemma Forall_weaken (P Q : effect -> Prop) (l : list effect) :
  (forall e, P e -> Q e) -> Forall P l -> Forall Q l.
Proof. intros H. apply Forall_impl. exact H. Qed.

(** ** After [stop()] *)

(** X1.  [stop()] leaves the stop flag set and the two stream attributes
    and the thread attribute [None]; a second [stop()] changes nothing more,
    releases no stream and joins no thread. *)
Theorem stop_twice (c : client) :
  let c1 := fst (stop c) in
  _stop_flag c1 = true /\ _in_stream c1 = None /\ _out_stream c1 = None
  /\ _thread c1 = None
  /\ fst (stop c1) = c1
  /\ Forall (fun e => e = ScheduleWsClose) (snd (stop c1)).
Proof.
  simpl. repeat (split; [reflexivity |]).
  unfold stop. simpl. destruct (_loop c), (_current_ws c); simpl; kinds.
Qed.

(** ** Muting *)

Lemma sender_suppressed_quiet (c : client) (env : sender_env) :
  suppressed c (snd_now env) <> None ->
  Forall (fun e => is_append e = false) (fst (_audio_sender_iter c env)).
Proof.
  intros H. unfold _audio_sender_iter.
  destruct (_stop_flag c); [constructor |].
  destruct (_in_stream c); [| constructor].
  destruct (snd_read env).
  - destruct (suppressed c (snd_now env)); [simpl; kinds | contradiction].
  - destruct (snd_stop_after_read env); simpl; kinds.
Qed.

Lemma receiver_no_append (c : client) (env : receiver_env) :
  Forall (fun e => is_append e = false)
    (snd (fst (_audio_receiver_iter c env))).
Proof.
  eapply Forall_weaken; [| apply receiver_never_sends].
  intros e. destruct e; trivial. discriminate.
Qed.

Lemma traffic_no_append (l : list effect) :
  Forall (fun e => is_traffic e = false) l ->
  Forall (fun e => is_append e = false) l.
Proof. apply Forall_weaken. intros e. now destruct e. Qed.

Lemma receiver_keeps_flags (c : client) (env : receiver_env) :
  let c' := fst (fst (_audio_receiver_iter c env)) in
  _mic_enabled c' = _mic_enabled c
  /\ _speaker_enabled c' = _speaker_enabled c.
Proof. unfold _audio_receiver_iter, dispatch. branches. Qed.

(** X3.  While the microphone is muted no frame goes out: from a client
    with [_mic_enabled] false, along any schedule that does not switch the
    microphone back on, no [input_audio_buffer.append] is sent, and the
    microphone is still muted at the end. *)
Theorem muted_sends_nothing (st : pipelines) (sched : list step) :
  _mic_enabled (p_client st) = false ->
  Forall (fun s => s <> ToggleMic true) sched ->
  appended (snd (run_turns st sched)) = []
  /\ _mic_enabled (p_client (fst (run_turns st sched))) = false.
Proof.
  intros Hm Hs.
  destruct (run_turns_trace
              (fun d => _mic_enabled d = false) (fun s => s <> ToggleMic true)
              (fun e => is_append e = false)) with
    (sched := sched) (st := st) as [H1 H2]; trivial.
  - intros st0 t Hm0 Ht. split.
    + destruct t; try (simpl; trivial; fail).
      * now rewrite sender_turn_client.
      * destruct (receiver_turn_client st0 env) as [-> | ->]; trivial.
        now destruct (receiver_keeps_flags (p_client st0) env) as [-> _].
      * destruct enabled; [congruence | reflexivity].
      * simpl. now destruct threshold, silence_ms.
    + apply turn_cases; [reflexivity |]. destruct t; trivial.
      * apply sender_suppressed_quiet. unfold suppressed. now rewrite Hm0.
      * apply receiver_no_append.
      * apply traffic_no_append, vad_update_no_traffic.
      * apply traffic_no_append, stop_never_sends.
  - split; [now apply appended_none | exact H1].
Qed.

Lemma muted_sends_nothing_witness :
  let sched :=
    [SenderTurn (reads_frame 1); ToggleSpeaker false;
     ReceiverTurn (receives ResponseAudioDone 2);
     SenderTurn (reads_frame 3)] in
  appended
    (snd (run_turns
            (mkPipelines (set_mic_enabled false live_client) Running Running
               None) sched)) = [].
Proof.
  intros sched.
  apply (muted_sends_nothing
           (mkPipelines (set_mic_enabled false live_client) Running Running
              None) sched eq_refl).
  repeat constructor; discriminate.
Defined.

(** X4.  While the speaker is switched off audio chunks are dropped whole:
    from a client with [_speaker_enabled] false and the speaking flag clear,
    along any schedule that does not switch the speaker back on, nothing is
    written to the output stream, no audio level is reported, the speaking
    flag stays clear and the recorded time stays what it was, so those
    chunks start no cooldown. *)
Theorem speaker_off_drops_chunks (st : pipelines) (sched : list step) :
  _speaker_enabled (p_client st) = false ->
  _assistant_speaking (p_client st) = false ->
  Forall (fun s => s <> ToggleSpeaker true) sched ->
  let st' := fst (run_turns st sched) in
  Forall (fun e => is_playback e = false) (snd (run_turns st sched))
  /\ _assistant_speaking (p_client st') = false
  /\ _last_assistant_audio_time (p_client st')
     = _last_assistant_audio_time (p_client st).
Proof.
  intros Hp Hk Hs.
  destruct (run_turns_trace
              (fun d => _speaker_enabled d = false
                        /\ _assistant_speaking d = false
                        /\ _last_assistant_audio_time d
                           = _last_assistant_audio_time (p_client st))
              (fun s => s <> ToggleSpeaker true)
              (fun e => is_playback e = false)) with
    (sched := sched) (st := st) as [(_ & H1 & H2) H3]; auto.
  intros st0 t (Hp0 & Hk0 & Hl0) Ht.
  assert (Hr : forall env,
             let r := _audio_receiver_iter (p_client st0) env in
             (_speaker_enabled (fst (fst r)) = false
              /\ _assistant_speaking (fst (fst r)) = false
              /\ _last_assistant_audio_time (fst (fst r))
                 = _last_assistant_audio_time (p_client st))
             /\ Forall (fun e => is_playback e = false) (snd (fst r))).
  { intros env. unfold _audio_receiver_iter, dispatch.
    rewrite Hp0. simpl. branches; repeat split; auto; kinds. }
  split.
  - destruct t; try (simpl; auto; fail).
    + now rewrite sender_turn_client.
    + destruct (receiver_turn_client st0 env) as [-> | ->]; auto.
      apply Hr.
    + destruct enabled; [congruence | simpl; auto].
    + simpl. destruct threshold, silence_ms; auto.
  - apply turn_cases; [reflexivity |]. destruct t; trivial.
    + unfold _audio_sender_iter. branches; kinds.
    + apply Hr.
    + eapply Forall_weaken; [| apply vad_update_no_traffic].
      intros e. now destruct e.
    + eapply Forall_weaken; [| apply stop_never_sends].
      intros e. now destruct e.
Qed.

Lemma speaker_off_drops_chunks_witness :
  let st :=
    mkPipelines (set_speaker_enabled false live_client) Running Running
      None in
  let sched :=
    [ReceiverTurn (receives (ResponseAudioDelta (Some "AAE=")) 10);
     SenderTurn (reads_frame (101 # 10));
     ReceiverTurn (receives (ResponseAudioDelta (Some "AAE=")) 11)] in
  Forall (fun e => is_playback e = false) (snd (run_turns st sched))
  /\ _last_assistant_audio_time (p_client (fst (run_turns st sched))) = 0
  /\ appended (snd (run_turns st sched)) = [frame].
Proof.
  intros st sched.
  destruct (speaker_off_drops_chunks st sched eq_refl eq_refl)
    as (H1 & _ & H2).
  - repeat constructor; discriminate.
  - split; [exact H1 |]. split; [exact H2 | reflexivity].
Defined.

(** ** What the receiver reports *)

(** X5.  Every audio level the receiver reports lies between 0 and 1,
    whatever the samples are: the level is four times the normalised
    root-mean-square, cut off at 1. *)
Theorem audio_level_in_range (st : pipelines) (sched : list step) :
  Forall
    (fun s =>
       match s with
       | ReceiverTurn env =>
         match rcv_rms env with Some rms => 0 <= rms | None => True end
       | _ => True
       end) sched ->
  Forall (fun e => forall l, e = AudioLevel l -> 0 <= l <= 1)
    (snd (run_turns st sched)).
Proof.
  intros Hs.
  apply (run_turns_trace (fun _ => True)
           (fun s =>
              match s with
              | ReceiverTurn env =>
                match rcv_rms env with Some rms => 0 <= rms | None => True end
              | _ => True
              end)
           (fun e => forall l, e = AudioLevel l -> 0 <= l <= 1));
    trivial.
  intros st0 t _ Ht. split; trivial.
  apply turn_cases; [discriminate |]. destruct t; trivial.
  - unfold _audio_sender_iter. branches; kinds; intros; discriminate.
  - unfold _audio_receiver_iter, dispatch, audio_level_effects.
    branches; kinds; try (intros; discriminate);
      intros l Hl; injection Hl as <-;
      match goal with
      | |- _ <= py_min 1 ?x <= _ =>
        destruct (py_min_spec 1 x) as [[? ->] | [? ->]]
      end; lra.
  - unfold set_vad_params, live_session_update. simpl.
    branches; kinds; intros; discriminate.
  - unfold stop, thread_is_alive. simpl.
    kinds; try (apply Forall_release; intros; discriminate);
      branches; kinds; intros; discriminate.
Qed.

Lemma audio_level_in_range_witness :
  let loud :=
    mkReceiverEnv (RecvOk (ResponseAudioDelta (Some "AAE="))) false 1
      (Some [Byte.x00; Byte.x7f]) false false (Some (9 # 10)) in
  let tr :=
    snd (run_turns (mkPipelines live_client Running Running None)
           [ReceiverTurn loud]) in
  In (AudioLevel 1) tr
  /\ Forall (fun e => forall l, e = AudioLevel l -> 0 <= l <= 1) tr.
Proof.
  intros loud tr. split; [right; left; reflexivity |].
  apply (audio_level_in_range
           (mkPipelines live_client Running Running None)
           [ReceiverTurn loud]).
  repeat constructor. discriminate.
Defined.

Lemma event_texts_none (tr : list effect) :
  Forall (fun e => event_texts [e] = []) tr -> event_texts tr = [].
Proof.
  induction 1 as [| e tr He _ IH]; simpl; trivial.
  rewrite IH. now destruct e.
Qed.

(** X6.  A completed-message notification is only ever emitted at a done
    boundary: along a schedule in which the receiver gets neither
    [response.text.done] nor [response.audio_transcript.done], no
    [on_event_text] call is made, whatever deltas, chunks and errors come
    in. *)
Theorem no_text_before_done (st : pipelines) (sched : list step) :
  Forall (fun s => is_done s = false) sched ->
  event_texts (snd (run_turns st sched)) = [].
Proof.
  intros Hs. apply event_texts_none.
  apply (run_turns_trace (fun _ => True) (fun s => is_done s = false)
           (fun e => event_texts [e] = [])); trivial.
  intros st0 t _ Ht. split; trivial.
  apply turn_cases; [reflexivity |]. destruct t; trivial.
  - unfold _audio_sender_iter. branches; kinds.
  - revert Ht. unfold is_done, _audio_receiver_iter, dispatch,
      audio_level_effects. intros Ht. branches; kinds.
  - unfold set_vad_params, live_session_update. simpl. branches; kinds.
  - unfold stop, thread_is_alive. simpl.
    kinds; try (apply Forall_release; reflexivity); branches; kinds.
Qed.

Lemma no_text_before_done_witness :
  event_texts
    (snd (run_turns (mkPipelines live_client Running Running None)
            [ReceiverTurn (receives (ResponseTextDelta (Some "Hel")) 1);
             ReceiverTurn
               (receives (ResponseAudioTranscriptDelta (Some "Hel")) 2);
             ReceiverTurn (receives (Error (Some "rate_limit")) 3)]))
  = [].
Proof.
  apply (no_text_before_done (mkPipelines live_client Running Running None)).
  repeat constructor.
Defined.

(** ** Order of the frames *)

Lemma subseq_nil_l {A : Type} (l : list A) : subseq [] l.
Proof. induction l; constructor; trivial. Qed.

Lemma subseq_app {A : Type} (a b c d : list A) :
  subseq a b -> subseq c d -> subseq (a ++ c) (b ++ d).
Proof.
  induction 1; intros Hcd; simpl; trivial.
  - apply subseq_skip. auto.
  - apply subseq_take. auto.
Qed.

Lemma appended_app (a b : list effect) :
  appended (a ++ b) = appended a ++ appended b.
Proof. apply flat_map_app. Qed.

Lemma appended_call (cb : bool) (e : effect) :
  is_append e = false -> appended (call cb e) = [].
Proof.
  intros H. apply appended_none. now apply Forall_call.
Qed.

(** In one turn the sender sends the frame it has read, or nothing. *)
Lemma sender_appends (c : client) (env : sender_env) :
  subseq (appended (fst (_audio_sender_iter c env)))
    (match snd_read env with ReadOk data _ => [data] | _ => [] end).
Proof.
  unfold _audio_sender_iter.
  destruct (_stop_flag c); [apply subseq_nil_l |].
  destruct (_in_stream c); [| apply subseq_nil_l].
  destruct (snd_read env) as [data o | e].
  - destruct (suppressed c (snd_now env)); [apply subseq_nil_l |].
    assert (Hd : subseq [data] [data]) by apply subseq_take, subseq_nil.
    destruct (snd_send env); [destruct (snd_stop_after_send env) |];
      trivial.
    cbn [fst]. change (subseq (data :: appended (call (on_server_error c)
                                  (ServerError
                                     (ErrorText
                                        ("Sender error: "
                                         ++ exn_message e)%string))))
                         [data]).
    now rewrite appended_call.
  - destruct (snd_stop_after_read env); [apply subseq_nil_l |].
    cbn [fst]. rewrite appended_call by reflexivity. constructor.
Qed.

Lemma frames_read_cons (s : step) (sched : list step) :
  frames_read (s :: sched) = frames_read [s] ++ frames_read sched.
Proof. unfold frames_read. simpl. now rewrite app_nil_r. Qed.

Lemma frames_read_sender (env : sender_env) :
  frames_read [SenderTurn env]
  = match snd_read env with ReadOk data _ => [data] | _ => [] end.
Proof. unfold frames_read. simpl. apply app_nil_r. Qed.

Lemma turn_appends (st : pipelines) (s : step) :
  subseq (appended (snd (turn st s))) (frames_read [s]).
Proof.
  assert (Hq : forall l, Forall (fun e => is_append e = false) l ->
                         subseq (appended l) (frames_read [s])).
  { intros l Hl. rewrite (appended_none l Hl). apply subseq_nil_l. }
  destruct s.
  - rewrite frames_read_sender.
    pose proof (sender_appends (p_client st) env) as H.
    simpl. destruct (p_sender st); simpl; try apply subseq_nil_l;
      destruct (_audio_sender_iter (p_client st) env) as [out k];
      simpl in *; rewrite ?appended_app, ?appended_call by reflexivity;
      exact H.
  - apply Hq, turn_cases; [reflexivity | apply receiver_no_append].
  - apply Hq, turn_cases; [reflexivity | trivial].
  - apply Hq, turn_cases; [reflexivity | trivial].
  - apply Hq, turn_cases; [reflexivity |].
    apply traffic_no_append, vad_update_no_traffic.
  - apply Hq, turn_cases; [reflexivity |].
    apply traffic_no_append, stop_never_sends.
Qed.

(** X7.  Frames go out in the order they were captured, each at most once:
    the frames appended along a schedule are the frames the sender has
    read, in the same order, with some left out. *)
Theorem frames_sent_in_order (sched : list step) :
  forall st,
    subseq (appended (snd (run_turns st sched))) (frames_read sched).
Proof.
  induction sched as [| s sched IH]; intros st; [constructor |].
  rewrite frames_read_cons. cbn [run_turns].
  destruct (gathered st); [apply subseq_nil_l |].
  pose proof (turn_appends st s) as H1.
  destruct (turn st s) as [st1 o1]. specialize (IH st1).
  destruct (run_turns st1 sched) as [st2 o2]. cbn [fst snd] in *.
  rewrite appended_app. now apply subseq_app.
Qed.

(** ** Setting a session up *)


(** X8.  When the audio streams cannot be opened the attempt is given up
    before any connection is made: [_run_session] returns normally, nothing
    is sent, the failure is reported once, whatever stream had been created
    is stopped and closed, and both stream attributes are [None]. *)
Theorem audio_failure_aborts (c : client) (env : session_env) (e : exn) :
  _stop_flag c = false ->
  _in_stream c = None ->
  _out_stream c = None ->
  ses_audio env = InputStreamRaises e
  \/ ses_audio env = OutputStreamRaises e
  \/ ses_audio env = StartRaises e ->
  exists c' tr,
    _run_session c env = Some (c', tr, Returned)
    /\ sent tr = [] /\ ~ In WsConnect tr
    /\ _in_stream c' = None /\ _out_stream c' = None
    /\ _current_ws c' = None
    /\ server_errors tr
       = (if on_server_error c
          then [ErrorText ("Failed to open audio streams: "
                           ++ exn_message e)%string]
          else [])
    /\ filter is_release tr
       = match ses_audio env with
         | OutputStreamRaises _ => release (Some RawInputStream)
         | StartRaises _ =>
           release (Some RawInputStream) ++ release (Some RawOutputStream)
         | _ => []
         end.
Proof.
  intros Hs Hi Ho H. unfold _run_session. rewrite Hs.
  destruct H as [-> | [-> | ->]]; cbn [audio_init_failed];
    eexists; eexists; (split; [reflexivity |]); simpl; rewrite ?Hi, ?Ho;
    destruct (on_status c), (on_server_error c); simpl;
    repeat split; trivial; intuition discriminate.
Qed.

Lemma audio_failure_aborts_witness :
  exists c' tr,
    _run_session running_client deaf_session = Some (c', tr, Returned)
    /\ sent tr = []
    /\ filter is_release tr
       = [StreamStop RawInputStream; StreamClose RawInputStream].
Proof.
  destruct (audio_failure_aborts running_client deaf_session
              (OtherException "no device") eq_refl eq_refl eq_refl
              (or_intror (or_introl eq_refl)))
    as (c' & tr & E & Hs & _ & _ & _ & _ & _ & Hr).
  exists c', tr. split; [exact E |]. split; [exact Hs | exact Hr].
Defined.

(** X9.  When the connection cannot be made the exception leaves
    [_run_session], but not before the [finally] block has stopped and
    closed both streams: nothing is sent, no connection is recorded as
    opened or closed, and both stream attributes are [None]. *)
Theorem connect_failure_releases (c : client) (env : session_env)
    (e : exn) :
  _stop_flag c = false ->
  ses_audio env = AudioOpened ->
  ses_connect env = Some e ->
  exists c' tr,
    _run_session c env = Some (c', tr, Raised e)
    /\ sent tr = [] /\ ~ In WsConnect tr /\ ~ In WsClose tr
    /\ filter is_release tr
       = release (Some RawInputStream) ++ release (Some RawOutputStream)
    /\ _in_stream c' = None /\ _out_stream c' = None
    /\ _current_ws c' = None /\ _connected c' = false.
Proof.
  intros Hs Ha Hc. unfold _run_session. rewrite Hs, Ha, Hc.
  eexists; eexists; (split; [reflexivity |]); simpl.
  destruct (on_status c), (on_ws_state c); simpl;
    repeat split; trivial; intuition discriminate.
Qed.

Lemma connect_failure_releases_witness :
  exists c' tr,
    _run_session running_client unreachable_session
    = Some (c', tr, Raised (OtherException "timed out"))
    /\ filter is_release tr
       = [StreamStop RawInputStream; StreamClose RawInputStream;
          StreamStop RawOutputStream; StreamClose RawOutputStream].
Proof.
  destruct (connect_failure_releases running_client unreachable_session
              (OtherException "timed out") eq_refl eq_refl eq_refl)
    as (c' & tr & E & _ & _ & _ & Hr & _).
  exists c', tr. split; [exact E | exact Hr].
Defined.

(** ** Leaving a session *)

Lemma exit_clears (c c' : client) (env : session_env) (tr : list effect)
    (r : result) :
  _stop_flag c = false ->
  _run_session c env = Some (c', tr, r) ->
  _current_ws c' = None /\ _in_stream c' = None /\ _out_stream c' = None.
Proof.
  unfold _run_session. intros Hs H.
  destruct (_stop_flag c); [discriminate Hs |].
  destruct (ses_audio env) as [| e | e | e];
    [| unfold audio_init_failed in H; injection H as <- _ _;
       repeat split; reflexivity ..].
  destruct (ses_connect env).
  { unfold session_finally in H. injection H as <- _ _.
    repeat split; reflexivity. }
  destruct (session_body (streams_opened (session_reset c)) env)
    as [[[c3 ran] r3] |]; [| discriminate].
  unfold session_finally in H. injection H as <- _ _.
  repeat split; reflexivity.
Qed.

(** X10.  When [_run_session] is over the connection handle is gone, so
    every operation that needs a live session does nothing: typed text is
    not scheduled, no response is requested, and new instructions or VAD
    parameters are only stored, with no update sent. *)
Theorem exit_leaves_stale_handle (c c' : client) (env : session_env)
    (tr : list effect) (r : result) (text : string) (k : config)
    (t : option Q) (m : option Z) :
  _stop_flag c = false ->
  _run_session c env = Some (c', tr, r) ->
  _current_ws c' = None /\ _in_stream c' = None /\ _out_stream c' = None
  /\ submit_text text c' = None
  /\ request_response c' = None
  /\ snd (set_instructions text c' k) = []
  /\ Forall (fun e => e <> ScheduleSessionUpdate)
       (snd (set_vad_params t m c')).
Proof.
  intros Hs H. destruct (exit_clears c c' env tr r Hs H) as (Hw & Hi & Ho).
  assert (Hl : live_session_update c' = []).
  { unfold live_session_update. rewrite Hw. now rewrite andb_false_r. }
  repeat split; trivial.
  - unfold submit_text. rewrite Hw. now destruct (_ || _).
  - unfold request_response. rewrite Hw. now destruct (_ || _).
  - unfold set_instructions. now destruct (nonempty text).
  - unfold set_vad_params, live_session_update.
    destruct t, m; simpl; rewrite Hw, andb_false_r; kinds.
Qed.

Lemma exit_leaves_stale_handle_witness :
  _run_session running_client dropped_session = dropped_exit
  /\ match dropped_exit with
     | Some (c', _, _) =>
       submit_text "salam" c' = None /\ request_response c' = None
     | None => False
     end.
Proof.
  assert (E : _run_session running_client dropped_session = dropped_exit)
    by (vm_compute; reflexivity).
  split; [exact E |]. unfold dropped_exit in E |- *.
  destruct (exit_leaves_stale_handle running_client _ dropped_session _ _
              "salam" (init_config "sk" None None None "alloy") None None
              eq_refl E)
    as (_ & _ & _ & H1 & H2 & _).
  split; [exact H1 | exact H2].
Defined.

Lemma first_message (c c' : client) (env : session_env)
    (tr : list effect) (r : result) :
  _run_session c env = Some (c', tr, r) ->
  In WsConnect tr ->
  exists pre post,
    tr = pre
         ++ WsSend (SessionUpdate (vad_threshold c) (vad_silence_ms c))
         :: post
    /\ sent pre = [].
Proof.
  unfold _run_session. intros H Hin.
  assert (Hno : forall l, Forall (fun e => e <> WsConnect) l ->
                          ~ In WsConnect l).
  { intros l Hl Hc. rewrite Forall_forall in Hl. now apply (Hl _ Hc). }
  destruct (_stop_flag c); [inversion H; subst; contradiction |].
  destruct (ses_audio env) as [| e | e | e];
    [| inversion H; subst; exfalso; revert Hin; apply Hno;
       kinds; apply Forall_release; discriminate ..].
  destruct (ses_connect env).
  { inversion H; subst; exfalso; revert Hin; apply Hno;
      kinds; apply Forall_release; discriminate. }
  destruct (session_body (streams_opened (session_reset c)) env)
    as [[[c3 ran] r3] |] eqn:Eb; [| discriminate].
  simpl in H. injection H as <- <- <-.
  set (c1 := session_connected (streams_opened (session_reset c))).
  set (hello := call (on_ws_state c1) (WsState true)
                ++ call (on_status c1)
                     (Status
                        (StatusText "Connected. You can start speaking."))).
  assert (Hran : exists rest,
             ran = hello
                   ++ WsSend (SessionUpdate (vad_threshold c)
                                (vad_silence_ms c)) :: rest).
  { unfold session_body, _send_session_update in Eb.
    destruct (ses_update env).
    - injection Eb as <- <- <-. now exists [].
    - destruct (run_turns _ (ses_schedule env)) as [st ran'].
      destruct (gathered st); [| discriminate].
      injection Eb as <- <- <-. eexists. reflexivity. }
  destruct Hran as [rest ->].
  exists (call (on_status c) (Status StatusConnecting)
          ++ StreamsOpen :: WsConnect :: hello).
  exists (rest ++ WsClose :: snd (session_finally c3)).
  split.
  - rewrite <- (app_assoc (call (on_status c) (Status StatusConnecting))).
    cbn [app]. now rewrite <- (app_assoc hello).
  - unfold hello, c1. simpl.
    destruct (on_status c), (on_ws_state c); reflexivity.
Qed.





(** ** How a session can end *)

Lemma receiver_control (c : client) (env : receiver_env) :
  may_raise (ReceiverTurn env) = false ->
  forall e, snd (_audio_receiver_iter c env) <> Raise e.
Proof.
  unfold may_raise, _audio_receiver_iter, dispatch. intros H e.
  branches; discriminate.
Qed.

Lemma sender_control (c : client) (env : sender_env) :
  forall e, snd (_audio_sender_iter c env) <> Raise e.
Proof. intros e. unfold _audio_sender_iter. branches; discriminate. Qed.

Lemma turn_no_raise (st : pipelines) (s : step) :
  may_raise s = false ->
  p_raised (fst (turn st s)) = p_raised st.
Proof.
  intros H. destruct s; trivial.
  - pose proof (sender_control (p_client st) env) as Hc. simpl.
    destruct (p_sender st); trivial;
      destruct (_audio_sender_iter (p_client st) env) as [out k];
      simpl in *; destruct k; trivial; now destruct (Hc e).
  - pose proof (receiver_control (p_client st) env H) as Hc. simpl.
    destruct (p_receiver st); trivial;
      destruct (_audio_receiver_iter (p_client st) env) as [[c' out] k];
      simpl in *; destruct k; trivial; now destruct (Hc e).
Qed.

Lemma run_turns_no_raise (sched : list step) :
  forall st,
    Forall (fun s => may_raise s = false) sched ->
    p_raised (fst (run_turns st sched)) = p_raised st.
Proof.
  induction sched as [| s sched IH]; intros st Hs; simpl; trivial.
  inversion Hs; subst. destruct (gathered st); trivial.
  pose proof (turn_no_raise st s H1) as Ht.
  destruct (turn st s) as [st1 o1]. specialize (IH st1 H2).
  destruct (run_turns st1 sched) as [st2 o2]. simpl in *. congruence.
Qed.



(** ** The reconnection loop, whatever the stop flag does *)

Lemma wait_advances (stop : nat -> bool) (n : nat) :
  forall k, (k <= snd (interruptible_wait n stop k))%nat.
Proof.
  induction n as [| n IH]; intros k; simpl; [lia |].
  destruct (stop k); simpl; [lia |].
  specialize (IH (S k)).
  destruct (interruptible_wait n stop (S k)) as [tr k']. simpl in *. lia.
Qed.

Lemma after_session_advances (c : client) (stop : nat -> bool) (k : nat)
    (r : result) :
  (k < snd (fst (after_session c stop k r)))%nat.
Proof.
  unfold after_session. destruct r as [| [m | m]].
  - destruct (stop k); cbn [fst snd]; lia.
  - destruct (stop k); [cbn [fst snd]; lia |].
    pose proof (wait_advances stop 30 (S k)) as H.
    destruct (interruptible_wait 30 stop (S k)) as [tr k'].
    cbn [fst snd] in *. lia.
  - destruct (stop k); [cbn [fst snd]; lia |].
    pose proof (wait_advances stop 50 (S k)) as H.
    destruct (interruptible_wait 50 stop (S k)) as [tr k'].
    cbn [fst snd] in *. lia.
Qed.

Lemma loop_stops (c : client) (stop : nat -> bool) (outcome : nat -> result)
    (K : nat) :
  (forall i, (K <= i)%nat -> stop i = true) ->
  forall fuel k n,
    (K < k + fuel)%nat -> (0 < fuel)%nat ->
    snd (_reconnect_loop fuel c stop outcome k n) = true.
Proof.
  intros Hs. induction fuel as [| fuel IH]; intros k n Hk Hf; [lia |].
  cbn [_reconnect_loop]. destruct (stop k) eqn:Ek; trivial.
  assert (k < K)%nat.
  { destruct (Nat.lt_ge_cases k K); trivial. rewrite Hs in Ek; [| lia].
    discriminate. }
  pose proof (after_session_advances c stop (S k) (outcome n)) as Ha.
  destruct (after_session c stop (S k) (outcome n)) as [[tr k'] ctl].
  simpl in Ha. destruct ctl; trivial.
  specialize (IH k' (S n) ltac:(lia) ltac:(lia)).
  now destruct (_reconnect_loop fuel c stop outcome k' (S n)).
Qed.

(** X13.  A stop request ends the reconnection loop.  If the stop flag
    reads set from the [K]-th read on, the loop is over after at most
    [K + 1] turns, however the sessions end; [_thread_main] then clears the
    loop attribute, after which no control call can schedule anything. *)
Theorem stop_ends_the_loop (c : client) (stop : nat -> bool)
    (outcome : nat -> result) (K : nat) (text : string) :
  (forall i, (K <= i)%nat -> stop i = true) ->
  snd (_reconnect_loop (S K) c stop outcome O O) = true
  /\ let c' := fst (fst (_thread_main (S K) c stop outcome)) in
     _loop c' = false
     /\ submit_text text c' = None
     /\ request_response c' = None
     /\ live_session_update c' = [].
Proof.
  intros Hs.
  assert (H : snd (_reconnect_loop (S K) (set_loop true c) stop outcome O O)
              = true)
    by (apply (loop_stops _ _ _ K); trivial; lia).
  split; [apply (loop_stops _ _ _ K); trivial; lia |].
  unfold _thread_main.
  destruct (_reconnect_loop (S K) (set_loop true c) stop outcome O O)
    as [tr ended]. simpl in H. subst ended. cbn [fst].
  split; [reflexivity |]. split; [| split].
  - unfold submit_text. cbn [_loop set_loop negb].
    now rewrite orb_true_r.
  - reflexivity.
  - reflexivity.
Qed.

Lemma stop_ends_the_loop_witness :
  let stop := fun i : nat => Nat.leb 40 i in
  let outcome := fun _ : nat => Raised (ConnectionClosedError "1006") in
  snd (_reconnect_loop 41 running_client stop outcome O O) = true
  /\ _loop (fst (fst (_thread_main 41 running_client stop outcome)))
     = false.
Proof.
  intros stop outcome.
  destruct (stop_ends_the_loop running_client stop outcome 40 "salam")
    as (H1 & H2 & _).
  - intros i Hi. apply Nat.leb_le. exact Hi.
  - split; [exact H1 | exact H2].
Defined.

Lemma slept_repeat (d : Q) (n : nat) :
  slept (repeat (Sleep d) n) == inject_Z (Z.of_nat n) * d.
Proof.
  induction n as [| n IH]; [reflexivity |].
  cbn [repeat slept]. rewrite IH, Nat2Z.inj_succ. unfold Z.succ.
  rewrite inject_Z_plus. ring.
Qed.

(** X14.  The pause between two sessions is bounded, whatever the stop
    flag does: after a session the loop sleeps at most 5 s before it tries
    again, and at most 3 s after a [ConnectionClosedError]. *)
Theorem backoff_is_bounded (c : client) (stop : nat -> bool) (k : nat)
    (r : result) (m : string) :
  slept (fst (fst (after_session c stop k r))) <= 5
  /\ slept (fst (fst (after_session c stop k
                        (Raised (ConnectionClosedError m))))) <= 3.
Proof.
  assert (Hw : forall e,
             slept (fst (fst (after_session c stop k (Raised e))))
             <= inject_Z (Z.of_nat (backoff e)) * (1 # 10)).
  { intros e. destruct (stop k) eqn:Hk.
    - destruct e; simpl; rewrite Hk; simpl; unfold Qle; simpl; lia.
    - destruct (after_raise c stop k e Hk) as (_ & -> & _).
      destruct (wait_sleeps stop (backoff e) (S k)) as (j & Hj & ->).
      rewrite slept_repeat.
      apply Qmult_le_compat_r; [| discriminate].
      rewrite <- Zle_Qle. lia. }
  split.
  - destruct r as [| e].
    + simpl. destruct (stop k); simpl; discriminate.
    + eapply Qle_trans; [apply Hw |]. destruct e; simpl; discriminate.
  - eapply Qle_trans; [apply Hw |]. simpl. discriminate.
Qed.

(** ** More on the receive pipeline *)

(** Audio-transcript deltas only grow the audio-transcript buffer. *)
Lemma audio_deltas_accumulate (frags : list string) :
  forall (envs : list receiver_env) (c : client),
    _stop_flag c = false ->
    delivers envs (audio_deltas frags) ->
    exists c',
      receiver_loop c envs = (c', [], Continue)
      /\ _assistant_audio_buffer c'
         = (_assistant_audio_buffer c ++ joined frags)%string
      /\ _assistant_text_buffer c' = _assistant_text_buffer c
      /\ _stop_flag c' = false
      /\ on_event_text c' = on_event_text c.
Proof.
  unfold delivers.
  induction frags as [| f frags IH]; intros [| env envs] c Hs Hd;
    try discriminate; simpl in *.
  - exists c. now rewrite append_empty.
  - injection Hd as He Hd.
    unfold _audio_receiver_iter. rewrite Hs, He.
    destruct f as [| a f]; simpl.
    + destruct (IH envs c Hs Hd) as (c' & -> & Ht & Ha & Hs' & Ho).
      now exists c'.
    + destruct (IH envs
                  (set_assistant_audio_buffer
                     (_assistant_audio_buffer c ++ String a f)%string c)
                  Hs Hd)
        as (c' & -> & Ht & Ha & Hs' & Ho).
      exists c'. simpl in *. now rewrite Ht, append_append.
Qed.



(** ** More on the control API *)

(** X17.  [start()] after [stop()] always starts a new thread and clears
    the stop flag: [stop()] has dropped the thread attribute, so [start()]
    does not look at whether the old thread has ended. *)
Theorem restart_spawns_thread (c : client) :
  let c1 := fst (stop c) in
  snd (start c1) = [ThreadStart (spawned c)]
  /\ _thread (fst (start c1)) = Some (spawned c)
  /\ _stop_flag (fst (start c1)) = false
  /\ In (spawned c) (live_threads (fst (start c1))).
Proof. repeat split. now left. Qed.

(** X18.  Typed text.  [submit_text] schedules something only for a
    non-empty text on a connected client, and then exactly that text on the
    current connection.  The coroutine sends the conversation item first and
    asks for a response only when that send went through; a failure is
    reported at most once, and not at all when a stop has been requested.
    The coroutine behind [request_response] sends one [response.create] and
    reports a failure under the same rule. *)
Theorem typed_text_goes_item_first (c : client) (text : string)
    (env : typed_env) :
  (forall ws t, submit_text text c = Some (ws, t) ->
                t = text /\ text <> "" /\ _loop c = true
                /\ _connected c = true /\ _current_ws c = Some ws)
  /\ (text = "" \/ _connected c = false \/ _current_ws c = None ->
      submit_text text c = None)
  /\ let tr := _send_user_text c text env in
     (sent tr
      = match typ_item env with
        | Some _ => [ConversationItemCreate text]
        | None => [ConversationItemCreate text; ResponseCreate]
        end)
     /\ (length (server_errors tr) <= 1)%nat
     /\ (typ_stopped env = true -> server_errors tr = [])
     /\ (typ_item env = None -> typ_response env = None ->
         tr = [WsSend (ConversationItemCreate text); WsSend ResponseCreate])
     /\ sent (_send_response_create c (typ_response env) (typ_stopped env))
        = [ResponseCreate]
     /\ (typ_stopped env = true ->
         server_errors
           (_send_response_create c (typ_response env) (typ_stopped env))
         = []).
Proof.
  split; [| split].
  - unfold submit_text. intros ws t.
    destruct (nonempty text) eqn:En, (_loop c), (_connected c),
      (_current_ws c); simpl; intros H; try discriminate H.
    apply nonempty_true in En. repeat split; trivial; congruence.
  - unfold submit_text. intros [-> | [-> | ->]]; simpl; trivial.
    + now rewrite orb_true_r.
    + now destruct (_ || _).
  - unfold _send_user_text, _send_response_create, send_failed.
    destruct (typ_item env), (typ_response env), (typ_stopped env),
      (on_server_error c); simpl; repeat split; auto; discriminate.
Qed.

Lemma typed_text_goes_item_first_witness :
  let broken := mkTypedEnv (Some (ConnectionClosedError "1006")) None true in
  submit_text "salam" live_client = Some (WebSocket, "salam")
  /\ submit_text "salam" running_client = None
  /\ _send_user_text live_client "salam" (mkTypedEnv None None false)
     = [WsSend (ConversationItemCreate "salam"); WsSend ResponseCreate]
  /\ server_errors (_send_user_text live_client "salam" broken) = [].
Proof.
  intros broken.
  destruct (typed_text_goes_item_first running_client "salam" broken)
    as (_ & H2 & _).
  destruct (typed_text_goes_item_first live_client "salam"
              (mkTypedEnv None None false))
    as (_ & _ & _ & _ & _ & H4 & _).
  destruct (typed_text_goes_item_first live_client "salam" broken)
    as (_ & _ & _ & _ & H5 & _).
  split; [reflexivity |].
  split; [apply H2; right; left; reflexivity |].
  split; [exact (H4 eq_refl eq_refl) | exact (H5 eq_refl)].
Defined.

Lemma configure_keeps (c : client) (k : config) (call : config_call) :
  (authorization k = bearer (api_key k) ->
   authorization (configure c k call)
   = bearer (api_key (configure c k call)))
  /\ (instructions k <> "" -> instructions (configure c k call) <> "")
  /\ (voice k <> "" -> voice (configure c k call) <> "")
  /\ model (configure c k call) = model k.
Proof.
  destruct call as [text | v | key]; simpl.
  - unfold set_instructions. destruct (nonempty text) eqn:E; simpl; auto.
    apply nonempty_true in E. auto.
  - unfold set_voice. destruct (nonempty v) eqn:E; simpl; auto.
    apply nonempty_true in E. auto.
  - auto.
Qed.

(** X19.  Whatever sequence of [set_instructions], [set_voice] and
    [set_api_key] calls follows [__init__], the authorization header is
    always ["Bearer "] followed by the stored key, the instructions are
    never empty (an empty text is ignored and [__init__] falls back to the
    default text), the model never changes, and a voice that was not empty
    at [__init__] never becomes empty. *)
Theorem configuration_stays_sound (c : client) (key0 : string)
    (model0 env_model instructions0 : option string) (voice0 : string)
    (calls : list config_call) :
  let k0 := init_config key0 model0 env_model instructions0 voice0 in
  let k := fold_left (configure c) calls k0 in
  authorization k = bearer (api_key k)
  /\ instructions k <> ""
  /\ model k = model k0
  /\ (voice0 <> "" -> voice k <> "").
Proof.
  intros k0 k.
  assert (H : forall calls k1,
             let k2 := fold_left (configure c) calls k1 in
             (authorization k1 = bearer (api_key k1) ->
              authorization k2 = bearer (api_key k2))
             /\ (instructions k1 <> "" -> instructions k2 <> "")
             /\ (voice k1 <> "" -> voice k2 <> "")
             /\ model k2 = model k1).
  { clear. induction calls as [| call calls IH]; intros k1; simpl; auto.
    destruct (configure_keeps c k1 call) as (H1 & H2 & H3 & H4).
    destruct (IH (configure c k1 call)) as (I1 & I2 & I3 & I4).
    repeat split; auto. congruence. }
  destruct (H calls k0) as (H1 & H2 & H3 & H4).
  split; [apply H1; reflexivity |].
  split; [apply H2 |]; [| split; [exact H4 | exact H3]].
  unfold k0, init_config. simpl. now destruct instructions0 as [[| a s] |].
Qed.

Lemma configuration_stays_sound_witness :
  let k :=
    fold_left (configure live_client)
      [SetInstructions ""; SetApiKey None; SetVoice "";
       SetApiKey (Some "sk-2")]
      (init_config "sk-1" None None None "alloy") in
  authorization k = "Bearer sk-2"
  /\ instructions k = default_instructions
  /\ voice k <> "".
Proof.
  intros k.
  destruct (configuration_stays_sound live_client "sk-1" None None None
              "alloy"
              [SetInstructions ""; SetApiKey None; SetVoice "";
               SetApiKey (Some "sk-2")])
    as (H1 & _ & _ & H4).
  split; [exact H1 |]. split; [reflexivity |]. apply H4. discriminate.
Defined.

(** ** The echo guard at the start of a session *)

Lemma run_turns_gathered (st : pipelines) (sched : list step) :
  gathered st = true -> run_turns st sched = (st, []).
Proof. intros H. destruct sched; simpl; trivial. now rewrite H. Qed.

Lemma run_turns_app (l1 l2 : list step) :
  forall st,
    run_turns st (l1 ++ l2)
    = (fst (run_turns (fst (run_turns st l1)) l2),
       snd (run_turns st l1) ++ snd (run_turns (fst (run_turns st l1)) l2)).
Proof.
  induction l1 as [| s l1 IH]; intros st.
  - simpl. now destruct (run_turns st l2).
  - change ((s :: l1) ++ l2) with (s :: l1 ++ l2).
    cbn [run_turns]. destruct (gathered st) eqn:Eg.
    + cbn [fst snd app]. now rewrite (run_turns_gathered st l2 Eg).
    + destruct (turn st s) as [st1 o1]. rewrite (IH st1).
      destruct (run_turns st1 l1) as [st2 o2]. cbn [fst snd].
      now rewrite app_assoc.
Qed.

Lemma receiver_keeps_stop (c : client) (env : receiver_env) :
  _stop_flag (fst (fst (_audio_receiver_iter c env))) = _stop_flag c.
Proof. unfold _audio_receiver_iter, dispatch. branches. Qed.

Lemma unhindered_running (st : pipelines) :
  unhindered st -> gathered st = false.
Proof.
  intros (Hr & Hs & _). unfold gathered. rewrite Hr.
  destruct (p_sender st); trivial. contradiction.
Qed.

(** Before the first audio chunk a steady turn leaves the sender under way,
    and what it sends is the frame it has read if the microphone is
    enabled. *)
Lemma turn_steady (st : pipelines) (s : step) :
  unhindered st ->
  steady s = true ->
  unhindered (fst (turn st s))
  /\ _mic_enabled (p_client (fst (turn st s)))
     = mic_after (_mic_enabled (p_client st)) s
  /\ appended (snd (turn st s))
     = if _mic_enabled (p_client st) then frames_read [s] else [].
Proof.
  intros (Hr & Hs & Hf & Hi & Hsp & Hl) Hc.
  assert (Hq : forall l, Forall (fun e => is_traffic e = false) l ->
                         appended l = []).
  { intros l H. now apply appended_none, traffic_no_append. }
  destruct s as [env | env | b | b | t m |]; try discriminate.
  - simpl in Hc. rewrite frames_read_sender.
    destruct (snd_read env) as [data o | e] eqn:Er; [| discriminate].
    destruct (snd_send env) eqn:Es; [discriminate |].
    assert (E : _audio_sender_iter (p_client st) env
                = if _mic_enabled (p_client st)
                  then ([WsSend (InputAudioBufferAppend data); Sleep 0],
                        Continue)
                  else ([Sleep 0], Continue)).
    { unfold _audio_sender_iter. rewrite Hf, Er.
      destruct (_in_stream (p_client st)); [| congruence].
      destruct (_mic_enabled (p_client st)) eqn:Hm.
      - rewrite not_suppressed, Es; trivial.
        left. rewrite Hl. apply Qle_refl.
      - unfold suppressed. now rewrite Hm. }
    destruct (_mic_enabled (p_client st)) eqn:Hm; simpl; rewrite E;
      (destruct (p_sender st); [| | contradiction]);
      cbn [fst snd p_client];
      rewrite ?appended_app, ?appended_call by reflexivity;
      (split; [repeat split; trivial; discriminate |]);
      (split; [exact Hm | reflexivity]).
  - apply andb_prop in Hc. destruct Hc as [Hc Hm].
    apply negb_true_iff in Hc, Hm.
    assert (Hp : p_sender (fst (turn st (ReceiverTurn env))) = p_sender st).
    { simpl. destruct (p_receiver st); trivial;
        now destruct (_audio_receiver_iter (p_client st) env)
          as [[? ?] ?]. }
    pose proof (turn_no_raise st (ReceiverTurn env) Hm) as Hn.
    pose proof (turn_keeps_quiet st (ReceiverTurn env) (conj Hl Hsp) Hc)
      as [Hl' Hsp'].
    pose proof (turn_keeps_streams st (ReceiverTurn env) eq_refl)
      as [Hin _].
    assert (Hfm : _stop_flag (p_client (fst (turn st (ReceiverTurn env))))
                  = _stop_flag (p_client st)
                  /\ _mic_enabled
                       (p_client (fst (turn st (ReceiverTurn env))))
                     = _mic_enabled (p_client st)).
    { destruct (receiver_turn_client st env) as [-> | ->]; auto.
      split; [apply receiver_keeps_stop | apply receiver_keeps_flags]. }
    destruct Hfm as [Hf' Hm'].
    split; [| split].
    + unfold unhindered. rewrite Hn, Hp, Hf', Hin.
      repeat split; assumption.
    + exact Hm'.
    + rewrite appended_none.
      * now destruct (_mic_enabled (p_client st)).
      * apply turn_cases; [reflexivity | apply receiver_no_append].
  - split; [| split].
    + unfold unhindered. simpl. repeat split; assumption.
    + reflexivity.
    + rewrite Hq; [now destruct (_mic_enabled (p_client st)) |].
      apply turn_cases; [reflexivity | trivial].
  - split; [| split].
    + unfold unhindered. simpl. repeat split; assumption.
    + reflexivity.
    + rewrite Hq; [now destruct (_mic_enabled (p_client st)) |].
      apply turn_cases; [reflexivity | trivial].
  - split; [| split].
    + unfold unhindered. simpl.
      destruct t, m; simpl; repeat split; assumption.
    + simpl. now destruct t, m.
    + rewrite Hq; [now destruct (_mic_enabled (p_client st)) |].
      apply turn_cases; [reflexivity | apply vad_update_no_traffic].
Qed.

Lemma run_turns_steady (sched : list step) :
  forall st,
    unhindered st ->
    Forall (fun s => steady s = true) sched ->
    appended (snd (run_turns st sched))
    = heard (_mic_enabled (p_client st)) sched.
Proof.
  induction sched as [| s sched IH]; intros st Hu Hs; trivial.
  inversion Hs; subst. cbn [run_turns heard].
  rewrite (unhindered_running st Hu).
  destruct (turn_steady st s Hu H1) as (Hu1 & Hm1 & Ha1).
  destruct (turn st s) as [st1 o1]. cbn [fst snd] in *.
  specialize (IH st1 Hu1 H2).
  destruct (run_turns st1 sched) as [st2 o2]. cbn [fst snd] in *.
  now rewrite appended_app, Ha1, IH, Hm1.
Qed.

(** C10.  [_run_session] sets the recorded time to zero and clears the
    speaking flag before the pipelines start, whatever an earlier session
    has left in them, and the sender's cooldown test fires only on a
    strictly positive recorded time.  So on every exit of [_run_session]
    with the connection opened: when no audio chunk has come during the
    session the recorded time is zero and the speaking flag clear at exit;
    and along any part of the schedule before the first audio chunk in
    which no call fails and [stop()] is not called, every frame read while
    the microphone is enabled is sent, none is held back by the cooldown or
    the speaking flag. *)
Theorem no_cooldown_before_first_chunk (c c' : client) (env : session_env)
    (tr : list effect) (r : result) :
  _run_session c env = Some (c', tr, r) ->
  In WsConnect tr ->
  (forall d now, suppressed d now = Some Cooldown ->
                 0 < _last_assistant_audio_time d)
  /\ (Forall (fun s => is_chunk s = false) (ses_schedule env) ->
      _last_assistant_audio_time c' = 0 /\ _assistant_speaking c' = false)
  /\ (forall before rest,
         ses_update env = None ->
         ses_schedule env = before ++ rest ->
         Forall (fun s => steady s = true) before ->
         exists more,
           appended tr = heard (_mic_enabled c) before ++ more).
Proof.
  unfold _run_session. intros H Hin.
  assert (Hno : forall l, Forall (fun e => e <> WsConnect) l ->
                          ~ In WsConnect l).
  { intros l Hl Hc. rewrite Forall_forall in Hl. now apply (Hl _ Hc). }
  destruct (_stop_flag c) eqn:Hstop; [inversion H; subst; contradiction |].
  destruct (ses_audio env) as [| e | e | e];
    [| inversion H; subst; exfalso; revert Hin; apply Hno;
       kinds; apply Forall_release; discriminate ..].
  destruct (ses_connect env).
  { inversion H; subst; exfalso; revert Hin; apply Hno;
      kinds; apply Forall_release; discriminate. }
  destruct (session_body (streams_opened (session_reset c)) env)
    as [[[c3 ran] r3] |] eqn:Eb; [| discriminate].
  unfold session_finally in H. injection H as <- <- _.
  split; [apply cooldown_needs_record |].
  set (st0 := mkPipelines
                (session_connected (streams_opened (session_reset c)))
                NotStarted NotStarted None).
  unfold session_body, _send_session_update in Eb. fold st0 in Eb.
  split.
  - intros Hq. cbn [_last_assistant_audio_time _assistant_speaking
                    set_out_stream set_in_stream set_connected
                    set_current_ws].
    destruct (ses_update env).
    + injection Eb as <- _ _. split; reflexivity.
    + pose proof (run_turns_invariant
                    (fun d => _last_assistant_audio_time d = 0
                              /\ _assistant_speaking d = false)
                    (fun s => is_chunk s = false) turn_keeps_quiet
                    (ses_schedule env) st0 (conj eq_refl eq_refl) Hq)
        as Hk.
      destruct (run_turns st0 (ses_schedule env)) as [st ran'].
      destruct (gathered st); [| discriminate].
      injection Eb as <- _ _. exact Hk.
  - intros before rest Hu Hsched Hb. rewrite Hu, Hsched in Eb.
    rewrite run_turns_app in Eb.
    assert (Hst : unhindered st0).
    { unfold unhindered, st0. cbn. rewrite Hstop.
      repeat split; trivial; discriminate. }
    pose proof (run_turns_steady before st0 Hst Hb) as Ha.
    destruct (run_turns st0 before) as [st1 o1]. cbn [fst snd] in *.
    destruct (run_turns st1 rest) as [st2 o2]. cbn [fst snd] in *.
    destruct (gathered st2); [| discriminate].
    injection Eb as _ <- _.
    exists (appended o2
            ++ appended
                 (WsClose
                  :: call (on_ws_state c3) (WsState false)
                  ++ release (_in_stream c3) ++ release (_out_stream c3)
                  ++ call (on_status c3)
                       (Status (StatusText "Audio streams closed.")))).
    rewrite !appended_app.
    rewrite (appended_call _ (Status StatusConnecting)) by reflexivity.
    change (appended (StreamsOpen :: WsConnect :: ?l)) with (appended l).
    rewrite !appended_app.
    rewrite !appended_call by reflexivity.
    cbn [app].
    change (appended (WsSend (SessionUpdate ?t ?m) :: ?l))
      with (appended l).
    rewrite !appended_app, appended_call by reflexivity.
    cbn [app]. rewrite Ha.
    change (_mic_enabled (p_client st0)) with (_mic_enabled c).
    now rewrite <- app_assoc.
Qed.

Lemma no_cooldown_before_first_chunk_witness :
  _last_assistant_audio_time stale_client = 100
  /\ _assistant_speaking stale_client = true
  /\ _run_session stale_client fresh_session = fresh_exit
  /\ In WsConnect (trace_of fresh_exit)
  /\ exists more, appended (trace_of fresh_exit) = early_frame :: more.
Proof.
  assert (E : _run_session stale_client fresh_session = fresh_exit)
    by (vm_compute; reflexivity).
  assert (Hin : In WsConnect (trace_of fresh_exit))
    by (right; right; left; reflexivity).
  split; [reflexivity |]. split; [reflexivity |].
  split; [exact E |]. split; [exact Hin |].
  unfold fresh_exit in E, Hin |- *.
  destruct (no_cooldown_before_first_chunk _ _ _ _ _ E Hin)
    as (_ & _ & H).
  apply (H [ReceiverTurn (receives (ResponseTextDelta (Some "Hi"))
                            (1000 # 10));
            SenderTurn
              (mkSenderEnv (ReadOk early_frame false) false (1001 # 10)
                 None false)]
           [Stop; SenderTurn (reads_frame 102);
            ReceiverTurn (receives ResponseAudioDone 103)]
           eq_refl eq_refl).
  repeat constructor.
Defined.
